(** * data-whisperer: CSV ingestion and query-plan execution

    A shallow embedding of the CSV library ([detectType],
    [parseCSVContent] with its local [parseLine], [generateCSVContent];
    imported by the pages as [@/lib/csv-parser]) and of [executeQueryPlan]
    from the query page, together with the part of the JavaScript run
    time these functions rely on: strings, IEEE-754 numbers, the
    conversions between them, and plain objects.

    Conventions of the model.
    - A JavaScript string is a [string]: a sequence of code units.  The
      model covers the code units U+0000..U+00FF (one [ascii] each), on
      which [trim], [toLowerCase] and the regular expressions of the
      source are closed.
    - A JavaScript number is a binary64 value, represented by the
      [spec_float] of the standard library with precision 53 and maximal
      exponent 1024; arithmetic and conversions round to nearest-even.
    - A plain object is the list of its own properties in insertion
      order; its prototype is [Object.prototype].
    - A thrown exception is an [Err] result; an awaited call of the store
      is a function from the dataset id and the limit to the response. *)

From Stdlib Require Import ZArith List String Ascii Bool Lia.
From Stdlib Require Import SpecFloat DecimalString Permutation.
Import ListNotations.
Open Scope string_scope.
Open Scope Z_scope.

(** ** Strings *)

Module Str.

Definition code (c : ascii) : N := N_of_ascii c.

Definition LF : ascii := "010"%char.
Definition CR : ascii := "013"%char.
Definition DQUOTE : ascii := "034"%char.
Definition COMMA : ascii := ","%char.

(** WhiteSpace and LineTerminator code units below U+0100: TAB, LF, VT,
    FF, CR, SP and NBSP.  This is the set removed by [String.prototype.trim]
    and skipped around a numeric string by [Number]. *)
Definition is_ws (c : ascii) : bool :=
  let n := code c in
  ((9 <=? n) && (n <=? 13) || (n =? 32) || (n =? 160))%N.

Definition is_digit (c : ascii) : bool :=
  let n := code c in ((48 <=? n) && (n <=? 57))%N.

Fixpoint trimStart (s : string) : string :=
  match s with
  | EmptyString => EmptyString
  | String c r => if is_ws c then trimStart r else s
  end.

Fixpoint trimEnd (s : string) : string :=
  match s with
  | EmptyString => EmptyString
  | String c r =>
      match trimEnd r with
      | EmptyString => if is_ws c then EmptyString else String c EmptyString
      | r' => String c r'
      end
  end.

(** [s.trim()] *)
Definition trim (s : string) : string := trimEnd (trimStart s).

(** [s.trim() !== ""] *)
Definition nonblank (s : string) : bool := negb (trim s =? "")%string.

(** Lower-case mapping of one code unit: A-Z, and the upper-case letters
    of the Latin-1 supplement (U+00C0..U+00DE except the multiplication
    sign U+00D7), move up by 32. *)
Definition lower_char (c : ascii) : ascii :=
  let n := code c in
  if ((65 <=? n) && (n <=? 90) || (192 <=? n) && (n <=? 222) && negb (n =? 215))%N
  then ascii_of_N (n + 32) else c.

(** [s.toLowerCase()] *)
Fixpoint toLowerCase (s : string) : string :=
  match s with
  | EmptyString => EmptyString
  | String c r => String (lower_char c) (toLowerCase r)
  end.

(** [s.startsWith(t)] *)
Definition startsWith (s t : string) : bool := String.prefix t s.

(** [s.includes(t)] *)
Fixpoint includes (s t : string) : bool :=
  String.prefix t s ||
  match s with
  | EmptyString => false
  | String _ r => includes r t
  end.

(** [parts.join(sep)] *)
Fixpoint join (sep : string) (parts : list string) : string :=
  match parts with
  | [] => ""
  | [p] => p
  | p :: rest => p ++ sep ++ join sep rest
  end.

(** [s.split(/\r?\n/)]: the text is cut at every LF, and a CR that
    immediately precedes the LF belongs to the separator.  A text without
    LF is a single piece; the empty text gives one empty piece. *)
Fixpoint split_lines (s : string) : list string :=
  match s with
  | EmptyString => [EmptyString]
  | String c r =>
      if Ascii.eqb c LF then EmptyString :: split_lines r
      else
        match r with
        | String c' _ =>
            if Ascii.eqb c CR && Ascii.eqb c' LF then split_lines r
            else
              match split_lines r with
              | l :: ls => String c l :: ls
              | [] => [String c EmptyString]
              end
        | EmptyString => [String c EmptyString]
        end
  end.

(** [s.replace(/DQUOTE/g, DQUOTE DQUOTE)]: every double quote is doubled. *)
Fixpoint double_quotes (s : string) : string :=
  match s with
  | EmptyString => EmptyString
  | String c r =>
      if Ascii.eqb c DQUOTE then String DQUOTE (String DQUOTE (double_quotes r))
      else String c (double_quotes r)
  end.

(** Does the code unit [x] occur in [s]? *)
Fixpoint has_char (x : ascii) (s : string) : bool :=
  match s with
  | EmptyString => false
  | String c r => Ascii.eqb c x || has_char x r
  end.

(** Is the last code unit of [s] a CR? *)
Fixpoint ends_cr (s : string) : bool :=
  match s with
  | EmptyString => false
  | String c EmptyString => Ascii.eqb c CR
  | String _ r => ends_cr r
  end.

(** Consume a maximal run of decimal digits. *)
Fixpoint span_digits (s : string) : string * string :=
  match s with
  | String c r =>
      if is_digit c then let '(d, t) := span_digits r in (String c d, t)
      else (EmptyString, s)
  | EmptyString => (EmptyString, EmptyString)
  end.

End Str.

(** ** Numbers *)

Module Num.

Definition prec : Z := 53.
Definition emax : Z := 1024.

(** A JavaScript number. *)
Definition jsnum : Type := spec_float.

Definition NaN : jsnum := S754_nan.
Definition zero : jsnum := S754_zero false.

(** The number nearest to an integer. *)
Definition of_Z (z : Z) : jsnum := binary_normalize prec emax z 0 false.

(** The number nearest to [m * 10^e], for [m >= 0], with the given sign. *)
Definition of_decimal (neg : bool) (m : Z) (e : Z) : jsnum :=
  match m with
  | Zpos p =>
      if 0 <=? e then binary_round prec emax neg (Pos.mul p (Z.to_pos (10 ^ e))) 0
      else
        let '(q, e', l) := SFdiv_core_binary prec emax (Zpos p) 0 (10 ^ (- e)) 0 in
        binary_round_aux prec emax neg q e' l
  | _ => S754_zero neg
  end.

Definition isNaN (x : jsnum) : bool :=
  match x with S754_nan => true | _ => false end.

(** [x < y], [x <= y], [x > y], [x >= y]: false as soon as one side is NaN. *)
Definition lt (x y : jsnum) : bool := SFltb x y.
Definition le (x y : jsnum) : bool := SFleb x y.
Definition gt (x y : jsnum) : bool := SFltb y x.
Definition ge (x y : jsnum) : bool := SFleb y x.

(** [x * y] *)
Definition mul (x y : jsnum) : jsnum := SFmul prec emax x y.

(** *** String to number: [Number(s)] on a string *)

Definition digit_val (c : ascii) : Z := Z.of_N (Str.code c) - 48.

(** Value of a string of decimal digits, most significant first. *)
Fixpoint digits_val (s : string) (acc : Z) : Z :=
  match s with
  | EmptyString => acc
  | String c r => digits_val r (10 * acc + digit_val c)
  end.

(** Value of a digit in the given radix (2, 8 or 16), if it is one. *)
Definition radix_digit (radix : Z) (c : ascii) : option Z :=
  let n := Z.of_N (Str.code c) in
  let v :=
    if (48 <=? n) && (n <=? 57) then n - 48
    else if (97 <=? n) && (n <=? 102) then n - 87
    else if (65 <=? n) && (n <=? 70) then n - 55
    else 16 in
  if v <? radix then Some v else None.

Fixpoint radix_val (radix : Z) (s : string) (acc : Z) : option Z :=
  match s with
  | EmptyString => Some acc
  | String c r =>
      match radix_digit radix c with
      | Some d => radix_val radix r (radix * acc + d)
      | None => None
      end
  end.

(** NonDecimalIntegerLiteral: [0b], [0o] or [0x] (either case) followed by
    at least one digit of that radix, and nothing else. *)
Definition parse_nondecimal (s : string) : option Z :=
  match s with
  | String "0" (String k (String c r)) =>
      let body := String c r in
      if (Ascii.eqb k "b" || Ascii.eqb k "B")%char then radix_val 2 body 0
      else if (Ascii.eqb k "o" || Ascii.eqb k "O")%char then radix_val 8 body 0
      else if (Ascii.eqb k "x" || Ascii.eqb k "X")%char then radix_val 16 body 0
      else None
  | _ => None
  end.

(** ExponentPart, or nothing, up to the end of the string. *)
Definition parse_exponent (s : string) : option Z :=
  match s with
  | EmptyString => Some 0
  | String c r =>
      if (Ascii.eqb c "e" || Ascii.eqb c "E")%char then
        let '(neg, r1) :=
          match r with
          | String "+" t => (false, t)
          | String "-" t => (true, t)
          | _ => (false, r)
          end in
        let '(ds, rest) := Str.span_digits r1 in
        match ds, rest with
        | String _ _, EmptyString =>
            Some (if neg then - digits_val ds 0 else digits_val ds 0)
        | _, _ => None
        end
      else None
  end.

(** StrUnsignedDecimalLiteral: [Infinity], or digits with an optional
    fraction and exponent, at least one digit before or after the dot. *)
Definition parse_unsigned_decimal (neg : bool) (s : string) : jsnum :=
  if (s =? "Infinity")%string then S754_infinity neg
  else
    let '(ip, r1) := Str.span_digits s in
    let '(fp, r2) :=
      match r1 with
      | String "." t => Str.span_digits t
      | _ => (EmptyString, r1)
      end in
    match (ip ++ fp)%string with
    | EmptyString => NaN
    | ds =>
        match parse_exponent r2 with
        | Some ex => of_decimal neg (digits_val ds 0) (ex - Z.of_nat (String.length fp))
        | None => NaN
        end
    end.

(** StringToNumber: white space is stripped on both sides; the empty
    string is +0; a string that is not a StrNumericLiteral is NaN. *)
Definition StringToNumber (s : string) : jsnum :=
  let t := Str.trim s in
  match t with
  | EmptyString => zero
  | String "+" r => parse_unsigned_decimal false r
  | String "-" r => parse_unsigned_decimal true r
  | _ =>
      match parse_nondecimal t with
      | Some n => of_Z n
      | None => parse_unsigned_decimal false t
      end
  end.

(** *** Number to string: [String(x)] on a number *)

(** Decimal numeral of a non-negative integer. *)
Definition Z_to_string (z : Z) : string :=
  NilZero.string_of_uint (N.to_uint (Z.to_N z)).

Fixpoint zeros (n : nat) : string :=
  match n with O => EmptyString | S k => String "0" (zeros k) end.

(** Number of decimal digits of a positive integer. *)
Fixpoint count_digits (fuel : nat) (z : Z) : Z :=
  match fuel with
  | O => 1
  | S f => if z <? 10 then 1 else 1 + count_digits f (z / 10)
  end.

(** The integer [n] with [10^(n-1) <= num/den < 10^n], for [num, den > 0];
    the fuel given to [count_digits] exceeds the number of digits. *)
Definition decimal_exponent (num den : Z) : Z :=
  if den <=? num then
    let q := num / den in count_digits (S (Z.to_nat (Z.log2 q))) q
  else
    let q := den / num in
    let j := count_digits (S (Z.to_nat (Z.log2 q))) q - 1 in
    if den <=? num * 10 ^ j then 1 - j else - j.

(** The digits [s] (an integer of [k] digits) and the exponent [n] of the
    shortest decimal [s * 10^(n-k)] that converts back to the positive
    number [m * 2^e]; among the shortest the one closest to it, and on a
    tie the even one.  The search tries [k], [k + 1], ... for [fuel]
    lengths; 17 digits always suffice for a binary64 number. *)
Fixpoint shortest_from (fuel : nat) (k : Z) (m : positive) (e : Z)
    (num den n0 : Z) : Z * Z * Z :=
  let x := S754_finite false m e in
  (* lo = floor (v / 10^(n0-k)), the real being snum / sden *)
  let snum := if n0 <=? k then num * 10 ^ (k - n0) else num in
  let sden := if n0 <=? k then den else den * 10 ^ (n0 - k) in
  let lo := snum / sden in
  let hi := lo + 1 in
  let back s n := of_decimal false s (n - k) in
  let is_x y := match SFcompare x y with Some Eq => true | _ => false end in
  let lo_ok := (10 ^ (k - 1) <=? lo) && is_x (back lo n0) in
  let hi_n := if hi =? 10 ^ k then n0 + 1 else n0 in
  let hi_s := if hi =? 10 ^ k then 10 ^ (k - 1) else hi in
  let hi_ok := is_x (back hi_s hi_n) in
  let pick_hi :=
    match 2 * snum ?= (2 * lo + 1) * sden with
    | Lt => false
    | Gt => true
    | Eq => Z.odd lo
    end in
  match fuel with
  | O => (hi_s, k, hi_n)
  | S f =>
      if lo_ok && hi_ok then
        if pick_hi then (hi_s, k, hi_n) else (lo, k, n0)
      else if lo_ok then (lo, k, n0)
      else if hi_ok then (hi_s, k, hi_n)
      else shortest_from f (k + 1) m e num den n0
  end.

Definition shortest_digits (m : positive) (e : Z) : Z * Z * Z :=
  let num := if 0 <=? e then Zpos m * 2 ^ e else Zpos m in
  let den := if 0 <=? e then 1 else 2 ^ (- e) in
  shortest_from 17 1 m e num den (decimal_exponent num den).

(** Number::toString in radix 10, for the digits [s] of length [k] and the
    exponent [n]. *)
Definition format_decimal (s k n : Z) : string :=
  let ds := Z_to_string s in
  if (k <=? n) && (n <=? 21) then ds ++ zeros (Z.to_nat (n - k))
  else if (0 <? n) && (n <=? 21) then
    String.substring 0 (Z.to_nat n) ds ++ "." ++
    String.substring (Z.to_nat n) (Z.to_nat (k - n)) ds
  else if (-6 <? n) && (n <=? 0) then "0." ++ zeros (Z.to_nat (- n)) ++ ds
  else
    let ex := (if 0 <=? n - 1 then "+" else "-") ++ Z_to_string (Z.abs (n - 1)) in
    if k =? 1 then ds ++ "e" ++ ex
    else String.substring 0 1 ds ++ "." ++
         String.substring 1 (Z.to_nat (k - 1)) ds ++ "e" ++ ex.

Definition NumberToString (x : jsnum) : string :=
  match x with
  | S754_nan => "NaN"
  | S754_zero _ => "0"
  | S754_infinity neg => if neg then "-Infinity" else "Infinity"
  | S754_finite neg m e =>
      let '(s, k, n) := shortest_digits m e in
      (if neg then "-" else "") ++ format_decimal s k n
  end.

End Num.

(** ** Values and plain objects *)

Module Js.

(** The values a record can hold or a lookup can return: the primitives,
    and [VObj text] for a non-primitive value (a plain object or a native
    function), known by the string [text] that converting it gives. *)
Inductive jsval : Type :=
  | VUndefined
  | VNull
  | VBool (b : bool)
  | VNum (x : Num.jsnum)
  | VStr (s : string)
  | VObj (text : string).

(** [String(v)] *)
Definition ToString (v : jsval) : string :=
  match v with
  | VUndefined => "undefined"
  | VNull => "null"
  | VBool true => "true"
  | VBool false => "false"
  | VNum x => Num.NumberToString x
  | VStr s => s
  | VObj text => text
  end.

(** [Number(v)] *)
Definition ToNumber (v : jsval) : Num.jsnum :=
  match v with
  | VUndefined => Num.NaN
  | VNull => Num.zero
  | VBool true => Num.of_Z 1
  | VBool false => Num.zero
  | VNum x => x
  | VStr s => Num.StringToNumber s
  | VObj text => Num.StringToNumber text
  end.

(** [v ?? d] *)
Definition nullish_or (v d : jsval) : jsval :=
  match v with
  | VUndefined | VNull => d
  | _ => v
  end.

(** A plain object: its own properties, in insertion order, one entry per
    key. *)
Definition obj : Type := list (string * jsval).

Fixpoint own_get (o : obj) (k : string) : option jsval :=
  match o with
  | [] => None
  | (k', v) :: rest => if (k' =? k)%string then Some v else own_get rest k
  end.

(** A built-in function, with the source text V8 gives it. *)
Definition native_function (name : string) : jsval :=
  VObj ("function " ++ name ++ "() { [native code] }").

(** The members of [Object.prototype], as a lookup that finds no own
    property sees them.  [__proto__] is an accessor whose getter returns
    the prototype itself. *)
Definition proto_get (k : string) : jsval :=
  if (k =? "__proto__")%string then VObj "[object Object]"
  else if (k =? "constructor")%string then native_function "Object"
  else if existsb (String.eqb k)
       ["__defineGetter__"; "__defineSetter__"; "__lookupGetter__";
        "__lookupSetter__"; "hasOwnProperty"; "isPrototypeOf";
        "propertyIsEnumerable"; "toLocaleString"; "toString"; "valueOf"]
  then native_function k
  else VUndefined.

(** [o[k]] *)
Definition get (o : obj) (k : string) : jsval :=
  match own_get o k with
  | Some v => v
  | None => proto_get k
  end.

Fixpoint own_replace (o : obj) (k : string) (v : jsval) : obj :=
  match o with
  | [] => []
  | (k', v') :: rest =>
      if (k' =? k)%string then (k', v) :: rest
      else (k', v') :: own_replace rest k v
  end.

(** [o[k] = v] on an object whose prototype is [Object.prototype], as
    the own properties after it: an own property is overwritten in place;
    otherwise the property is added last, except for [__proto__], whose
    inherited setter runs instead and creates no own property.  What the
    setter does to the prototype is told by [assign] below. *)
Definition set (o : obj) (k : string) (v : jsval) : obj :=
  match own_get o k with
  | Some _ => own_replace o k v
  | None => if (k =? "__proto__")%string then o else (o ++ [(k, v)])%list
  end.

(** The prototype of an object: [null], or an object, the value
    [VObj text].  [Object.prototype], which an object literal and the
    objects of a parsed JSON text start with, is the object that reading
    [__proto__] gives. *)
Inductive prototype : Type :=
  | NullPrototype
  | ObjectValue (text : string).

Definition ObjectPrototype : prototype := ObjectValue "[object Object]".

(** The setter of [__proto__]: an object or null becomes the prototype,
    any other value is ignored. *)
Definition set_prototype (p : prototype) (v : jsval) : prototype :=
  match v with
  | VNull => NullPrototype
  | VObj text => ObjectValue text
  | _ => p
  end.

(** [o[k] = v] on an object with the prototype [p] and the own properties
    [o]: the prototype and the own properties after it.  An own property
    is overwritten in place and a new key is added last.  For [__proto__]
    that is not an own key, the setter inherited from [Object.prototype]
    runs instead; an object with the prototype null inherits no setter,
    and gets an own property.  An object that serves as prototype is taken
    to inherit the setter, as every object of a parsed JSON text does that
    has no [__proto__] key of its own. *)
Definition assign (p : prototype) (o : obj) (k : string) (v : jsval) : prototype * obj :=
  match own_get o k with
  | Some _ => (p, own_replace o k v)
  | None =>
      if (k =? "__proto__")%string then
        match p with
        | NullPrototype => (p, (o ++ [(k, v)])%list)
        | ObjectValue _ => (set_prototype p v, o)
        end
      else (p, (o ++ [(k, v)])%list)
  end.

(** An array index: the canonical numeral of an integer below 2^32 - 1. *)
Definition array_index (k : string) : option Z :=
  match k with
  | EmptyString => None
  | String c r =>
      if forallb Str.is_digit (list_ascii_of_string k)
         && (negb (Ascii.eqb c "0") || (r =? "")%string)
         && (Nat.leb (String.length k) 10)
      then
        let n := Num.digits_val k 0 in
        if n <? 4294967295 then Some n else None
      else None
  end.

Fixpoint insert_index (e : Z * string) (l : list (Z * string)) : list (Z * string) :=
  match l with
  | [] => [e]
  | e' :: rest => if fst e <=? fst e' then e :: l else e' :: insert_index e rest
  end.

(** [Object.keys(o)]: array indices in ascending order, then the other
    keys in insertion order. *)
Definition keys (o : obj) : list string :=
  let ks := map fst o in
  let idx := fold_right (fun k acc =>
               match array_index k with
               | Some n => insert_index (n, k) acc
               | None => acc
               end) [] ks in
  (map snd idx ++
   filter (fun k => match array_index k with Some _ => false | None => true end) ks)%list.

(** [l1] is [l2] with some elements left out, the others in their order. *)
Inductive subseq {A : Type} : list A -> list A -> Prop :=
  | subseq_nil : subseq [] []
  | subseq_skip x l1 l2 : subseq l1 l2 -> subseq l1 (x :: l2)
  | subseq_keep x l1 l2 : subseq l1 l2 -> subseq (x :: l1) (x :: l2).

(** What a function can throw: [new Error(message)], the TypeError of
    the run time, or a value thrown as it is (the error object of the
    store, known by its message). *)
Inductive exn : Type :=
  | Error (message : string)
  | TypeError (message : string)
  | Thrown (e : string).

(** The outcome of a call: the value returned, or the exception thrown. *)

Inductive result (A : Type) : Type :=
  | Ok (a : A)
  | Err (e : exn).
Arguments Ok {A} a.
Arguments Err {A} e.

Definition bind {A B} (r : result A) (k : A -> result B) : result B :=
  match r with
  | Ok a => k a
  | Err e => Err e
  end.

Fixpoint mapM {A B} (f : A -> result B) (l : list A) : result (list B) :=
  match l with
  | [] => Ok []
  | a :: rest =>
      bind (f a) (fun b => bind (mapM f rest) (fun bs => Ok (b :: bs)))
  end.

End Js.

(** ** The CSV library: [src/lib/csv-parser.ts] *)

Module Csv.
Import Js.

Inductive coltype : Type := TString | TNumber | TBoolean | TDate.

Record ColumnInfo : Type := {
  name : string;
  detectedType : coltype;
  sampleValues : list string
}.

Record ParsedCSV : Type := {
  headers : list string;
  rows : list obj;
  columns : list ColumnInfo;
  totalRows : nat
}.

(** *** The date patterns *)

(** Exactly [n] decimal digits, then the rest. *)
Fixpoint digits_exact (n : nat) (s : string) : option string :=
  match n with
  | O => Some s
  | S k =>
      match s with
      | String c r => if Str.is_digit c then digits_exact k r else None
      | EmptyString => None
      end
  end.

Definition literal (c : ascii) (s : string) : option string :=
  match s with
  | String c' r => if Ascii.eqb c' c then Some r else None
  | EmptyString => None
  end.

(** One or two digits followed by the separator [sep]: [\d{1,2}] takes
    two digits when it can and gives one back when [sep] does not follow. *)
Definition digits_1_2_then (sep : ascii) (s : string) : option string :=
  match digits_exact 2 s with
  | Some r =>
      match literal sep r with
      | Some r' => Some r'
      | None => match digits_exact 1 s with Some r1 => literal sep r1 | None => None end
      end
  | None => match digits_exact 1 s with Some r1 => literal sep r1 | None => None end
  end.

Definition then_ (o : option string) (f : string -> option string) : option string :=
  match o with Some r => f r | None => None end.

Definition matched (o : option string) : bool :=
  match o with Some _ => true | None => false end.

(** [/^\d{4}-\d{2}-\d{2}/.test(v)] *)
Definition iso_date (v : string) : bool :=
  matched (then_ (then_ (then_ (then_ (digits_exact 4 v) (literal "-")) (digits_exact 2))
                        (literal "-")) (digits_exact 2)).

(** [/^\d{1,2}\/\d{1,2}\/\d{2,4}/.test(v)]: at the end of the pattern two
    digits are enough for [\d{2,4}]. *)
Definition us_date (v : string) : bool :=
  matched (then_ (then_ (digits_1_2_then "/" v) (digits_1_2_then "/")) (digits_exact 2)).

(** [/^\d{1,2}-\d{1,2}-\d{2,4}/.test(v)] *)
Definition dash_date (v : string) : bool :=
  matched (then_ (then_ (digits_1_2_then "-" v) (digits_1_2_then "-")) (digits_exact 2)).

Definition datePatterns : list (string -> bool) := [iso_date; us_date; dash_date].

Definition boolValues : list string := ["true"; "false"; "yes"; "no"; "1"; "0"].

(** *** [detectType] *)
Definition detectType (values : list string) : coltype :=
  let nonEmpty := filter Str.nonblank values in
  if Nat.eqb (List.length nonEmpty) 0 then TString
  else if forallb (fun v => existsb (String.eqb (Str.toLowerCase v)) boolValues) nonEmpty
  then TBoolean
  else if forallb (fun v => negb (Num.isNaN (Num.StringToNumber v)) && Str.nonblank v) nonEmpty
  then TNumber
  else if Num.gt
            (Num.of_Z (Z.of_nat (List.length
               (filter (fun v => existsb (fun p => p v) datePatterns) nonEmpty))))
            (Num.mul (Num.of_Z (Z.of_nat (List.length nonEmpty))) (Num.of_decimal false 7 (-1)))
  then TDate
  else TString.

(** [detectType] as the run time calls it: its first step applies [trim]
    to every element, which throws on an element that is not a string. *)
Fixpoint strings_of (values : list jsval) : option (list string) :=
  match values with
  | [] => Some []
  | VStr s :: rest =>
      match strings_of rest with Some ss => Some (s :: ss) | None => None end
  | _ :: _ => None
  end.

(** *** [parseLine], the local function of [parseCSVContent] *)
Fixpoint parseLine_from (line : string) (result : list string) (current : string)
    (inQuotes : bool) : list string :=
  match line with
  | EmptyString => (result ++ [Str.trim current])%list
  | String char rest =>
      if Ascii.eqb char Str.DQUOTE then
        match rest with
        | String next rest' =>
            if inQuotes && Ascii.eqb next Str.DQUOTE
            then parseLine_from rest' result (current ++ String Str.DQUOTE "") inQuotes
            else parseLine_from rest result current (negb inQuotes)
        | EmptyString => parseLine_from rest result current (negb inQuotes)
        end
      else if Ascii.eqb char Str.COMMA && negb inQuotes
      then parseLine_from rest (result ++ [Str.trim current])%list "" inQuotes
      else parseLine_from rest result (current ++ String char "") inQuotes
  end.

Definition parseLine (line : string) : list string :=
  parseLine_from line [] "" false.

(** [headers.forEach((h, idx) => { row[h] = values[idx] ?? "" })] *)
Fixpoint fill_row (hs : list string) (idx : nat) (values : list string) (row : obj) : obj :=
  match hs with
  | [] => row
  | h :: rest => fill_row rest (S idx) values (set row h (VStr (nth idx values "")))
  end.

Definition make_row (headers values : list string) : obj :=
  fill_row headers 0 values [].

(** One element of [columns]. *)
Definition column_info (rows : list obj) (sampleSize : nat) (name : string)
    : result ColumnInfo :=
  let sampleValues :=
    map (fun r => nullish_or (get r name) (VStr "")) (firstn sampleSize rows) in
  match strings_of sampleValues with
  | Some vs =>
      Ok {| name := name; detectedType := detectType vs; sampleValues := firstn 5 vs |}
  | None => Err (TypeError "v.trim is not a function")
  end.

(** *** [parseCSVContent] *)
Definition parseCSVContent (content : string) : result ParsedCSV :=
  let lines := filter Str.nonblank (Str.split_lines content) in
  match lines with
  | [] => Err (Error "CSV file is empty")
  | first :: others =>
      let headers := parseLine first in
      if Nat.eqb (List.length headers) 0 || forallb (fun h => (h =? "")%string) headers
      then Err (Error "CSV must have headers")
      else
        let rows := map (fun l => make_row headers (parseLine l)) others in
        let sampleSize := Nat.min (List.length rows) 100 in
        bind (mapM (column_info rows sampleSize) headers) (fun columns =>
        Ok {| headers := headers; rows := rows; columns := columns;
              totalRows := List.length rows |})
  end.

(** *** [generateCSVContent] *)
Definition quoted (s : string) : string :=
  String Str.DQUOTE (s ++ String Str.DQUOTE "").

Definition generateCSVContent (rows : list obj) (columns : option (list string)) : string :=
  match rows with
  | [] => ""
  | first :: _ =>
      let cols := match columns with Some c => c | None => keys first end in
      let header := Str.join "," (map quoted cols) in
      let dataLines :=
        map (fun row =>
               Str.join ","
                 (map (fun c =>
                         let val := ToString (nullish_or (get row c) (VStr "")) in
                         quoted (Str.double_quotes val)) cols)) rows in
      Str.join (String Str.LF "") (header :: dataLines)
  end.

(** *** Notions used to state the properties of the parser *)

(** A field as [parseLine] produces it from one line of the text: trimmed,
    and without LF. *)
Definition field_ok (s : string) : Prop :=
  Str.trim s = s /\ Str.has_char Str.LF s = false.

Definition starts_with_quote (k : string) : bool :=
  match k with
  | String c _ => Ascii.eqb c Str.DQUOTE
  | EmptyString => false
  end.

(** The own keys of an object after [o[h] = ...]: a new key goes last,
    and [__proto__] never becomes one. *)
Definition add_key (ks : list string) (h : string) : list string :=
  if existsb (String.eqb h) ks then ks
  else if (h =? "__proto__")%string then ks
  else (ks ++ [h])%list.

(** The object with the own keys [ks], each holding what [r] gives. *)
Definition retag (r : obj) (ks : list string) : obj :=
  map (fun k => (k, get r k)) ks.

(** A row of the parser: every own value is a string that is a field. *)
Definition row_ok (o : obj) : Prop :=
  Forall (fun kv => exists s, snd kv = VStr s /\ field_ok s) o.

(** The text of a cell as [generateCSVContent] reads it. *)
Definition cell (row : obj) (c : string) : string :=
  ToString (nullish_or (get row c) (VStr "")).

(** One data line of [generateCSVContent]. *)
Definition data_line (cols : list string) (row : obj) : string :=
  Str.join "," (map (fun c => quoted (Str.double_quotes (cell row c))) cols).

End Csv.

(** ** The query page: [executeQueryPlan] *)

Module Query.
Import Js.

Record QueryFilter : Type := {
  column : string;
  operator : string;
  value : jsval
}.

Record QueryPlan : Type := {
  dataset_ids : list string;
  filters : list QueryFilter;
  columns : option (list string);
  limit : option Z
}.

(** A row of the [records] table as selected: [{ data }]. *)
Record StoredRow : Type := { row_data : obj }.

(** What awaiting the store query gives: [{ data, error }]. *)
Record Response : Type := {
  data : option (list StoredRow);
  error : option string
}.

(** The store: dataset id and limit to response. *)
Definition Fetch : Type := string -> Z -> Response.

(** The callback of [rows.filter] for one filter. *)
Definition keep (filter : QueryFilter) (row : obj) : bool :=
  let val := Str.toLowerCase (ToString (nullish_or (get row (column filter)) (VStr ""))) in
  let target := Str.toLowerCase (ToString (value filter)) in
  let op := operator filter in
  if (op =? "equals")%string then (val =? target)%string
  else if (op =? "contains")%string then Str.includes val target
  else if (op =? "starts_with")%string then Str.startsWith val target
  else if (op =? "gt")%string
  then Num.gt (ToNumber (get row (column filter))) (ToNumber (value filter))
  else if (op =? "lt")%string
  then Num.lt (ToNumber (get row (column filter))) (ToNumber (value filter))
  else if (op =? "gte")%string
  then Num.ge (ToNumber (get row (column filter))) (ToNumber (value filter))
  else if (op =? "lte")%string
  then Num.le (ToNumber (get row (column filter))) (ToNumber (value filter))
  else true.

(** The four relational operators and the comparison each one denotes. *)
Definition is_relational (op : string) : bool :=
  existsb (String.eqb op) ["gt"; "lt"; "gte"; "lte"].

Definition relational (op : string) (x y : Num.jsnum) : bool :=
  if (op =? "gt")%string then Num.gt x y
  else if (op =? "lt")%string then Num.lt x y
  else if (op =? "gte")%string then Num.ge x y
  else Num.le x y.

(** [for (const filter of plan.filters) rows = rows.filter(...)] *)
Definition applyFilters (rows : list obj) (filters : list QueryFilter) : list obj :=
  fold_left (fun rows filter => List.filter (keep filter) rows) filters rows.

(** The projection of one row:
    [plan.columns.forEach((c) => { filtered[c] = row[c] })], from the
    empty object literal: the prototype and the own properties of
    [filtered] at the end.  A row that has [__proto__] as an own key, as a
    parsed JSON text can give, hands its value to the setter. *)
Definition project_object (cols : list string) (row : obj) : prototype * obj :=
  fold_left (fun filtered c => assign (fst filtered) (snd filtered) c (get row c))
            cols (ObjectPrototype, []).

(** The projected record, given as the rows are by its own properties. *)
Definition project_row (cols : list string) (row : obj) : obj :=
  snd (project_object cols row).

(** [if (plan.columns?.length) rows = rows.map(...)] *)
Definition project (columns : option (list string)) (rows : list obj) : list obj :=
  match columns with
  | Some (c :: cs) => map (project_row (c :: cs)) rows
  | Some [] | None => rows
  end.

(** The body of the loop for one dataset, after a successful fetch. *)
Definition dataset_rows (plan : QueryPlan) (r : Response) : list obj :=
  let rows := map row_data (match data r with Some d => d | None => [] end) in
  project (columns plan) (applyFilters rows (filters plan)).

Definition fetch_limit (plan : QueryPlan) : Z :=
  match limit plan with Some n => n | None => 200 end.

(** [for (const datasetId of plan.dataset_ids) { ... }] *)
Fixpoint run (fetch : Fetch) (plan : QueryPlan) (ids : list string)
    (allResults : list obj) : result (list obj) :=
  match ids with
  | [] => Ok allResults
  | datasetId :: rest =>
      let r := fetch datasetId (fetch_limit plan) in
      match error r with
      | Some e => Err (Thrown e)
      | None => run fetch plan rest (allResults ++ dataset_rows plan r)%list
      end
  end.

Definition executeQueryPlan (fetch : Fetch) (plan : QueryPlan) : result (list obj) :=
  run fetch plan (dataset_ids plan) [].

End Query.

(** ** The executor in the words of the specification

    Section 4.4 and 4.5 of the specification, written down apart from the
    code, to compare [executeQueryPlan] with.  The relational operators
    read the row value as it is, as the amended first claim has it. *)

Module Spec.
Import Js Query.

Inductive Operator : Type :=
  | Equals | Contains | StartsWith | Gt | Lt | Gte | Lte | Unrecognized.

Definition operator_of (name : string) : Operator :=
  if (name =? "equals")%string then Equals
  else if (name =? "contains")%string then Contains
  else if (name =? "starts_with")%string then StartsWith
  else if (name =? "gt")%string then Gt
  else if (name =? "lt")%string then Lt
  else if (name =? "gte")%string then Gte
  else if (name =? "lte")%string then Lte
  else Unrecognized.

(** The lower-cased string form of a value. *)
Definition lowered (v : jsval) : string := Str.toLowerCase (ToString v).

(** The row's value at the column; if absent, the empty string. *)
Definition value_or_empty (row : obj) (col : string) : jsval :=
  match get row col with
  | VUndefined | VNull => VStr ""
  | v => v
  end.

(** One filter on one row. *)
Definition satisfies (f : QueryFilter) (row : obj) : bool :=
  let x := ToNumber (get row (column f)) in
  let y := ToNumber (value f) in
  match operator_of (operator f) with
  | Equals => (lowered (value_or_empty row (column f)) =? lowered (value f))%string
  | Contains => Str.includes (lowered (value_or_empty row (column f))) (lowered (value f))
  | StartsWith => Str.startsWith (lowered (value_or_empty row (column f))) (lowered (value f))
  | Gt => Num.gt x y
  | Lt => Num.lt x y
  | Gte => Num.ge x y
  | Lte => Num.le x y
  | Unrecognized => true
  end.

(** The filters as a logical AND. *)
Definition passes (filters : list QueryFilter) (row : obj) : bool :=
  forallb (fun f => satisfies f row) filters.

(** [out] is a record containing only the requested keys, each one with
    what the row gives for it.  ([__proto__] is no key like the others:
    see [project_object].) *)
Definition projection_of (cols : list string) (row out : obj) : Prop :=
  NoDup (map fst out)
  /\ (forall k, In k (map fst out) -> In k cols)
  /\ (forall c, In c cols -> c <> "__proto__" -> own_get out c = Some (get row c)).

(** The optional projection: without columns, or with none listed, the
    record is the row. *)
Definition record_of (columns : option (list string)) (row out : obj) : Prop :=
  match columns with
  | Some (c :: cs) => projection_of (c :: cs) row out
  | Some [] | None => out = row
  end.

(** What one dataset gives: its fetched rows that pass the filters, in
    their order, each one projected. *)
Definition selection (filters : list QueryFilter) (columns : option (list string))
    (fetched group : list obj) : Prop :=
  Forall2 (record_of columns) (filter (passes filters) fetched) group.

End Spec.

(** ** More of the run time, for the pages *)

Module Std.

(** Number of occurrences of the code unit [x] in [s]. *)
Fixpoint count_char (x : ascii) (s : string) : nat :=
  match s with
  | EmptyString => O
  | String c r => if Ascii.eqb c x then S (count_char x r) else count_char x r
  end.

(** [s.endsWith(t)]: some suffix of [s] is [t]. *)
Fixpoint endsWith (s t : string) : bool :=
  (s =? t)%string ||
  match s with
  | EmptyString => false
  | String _ r => endsWith r t
  end.

(** [l.slice(i, j)] for [0 <= i <= j]. *)
Definition slice {A : Type} (i j : nat) (l : list A) : list A :=
  firstn (j - i) (skipn i l).

(** [l.slice(-n)]: the last [n] elements, all of them when there are
    fewer. *)
Definition slice_last {A : Type} (n : nat) (l : list A) : list A :=
  skipn (List.length l - n) l.

(** [l.includes(x)] on strings. *)
Definition includes (l : list string) (x : string) : bool :=
  existsb (String.eqb x) l.

End Std.

(** ** The upload page: [UploadPage.tsx] *)

Module Upload.
Import Str Std Js Csv.

(** ["idle" | "previewing" | "importing" | "complete" | "error"] *)
Inductive ImportStatus : Type :=
  | StatusIdle
  | StatusPreviewing
  | StatusImporting
  | StatusComplete
  | StatusError.

(** The state of the page: the [useState] cells.  A file is known by its
    name; its text arrives with the reader's [onload]. *)
Record State : Type := {
  file : option string;
  parsed : option ParsedCSV;
  datasetName : string;
  tagInput : string;
  tags : list string;
  status : ImportStatus;
  error : string
}.

Definition initial : State :=
  {| file := None; parsed := None; datasetName := ""; tagInput := ""; tags := [];
     status := StatusIdle; error := "" |}.

(** [/\.csv$/i] at the position where it can match: the last four code
    units. *)
Definition is_dot_csv (s : string) : bool :=
  match s with
  | String a (String b (String c (String d EmptyString))) =>
      Ascii.eqb a "." && Ascii.eqb (lower_char b) "c"
      && Ascii.eqb (lower_char c) "s" && Ascii.eqb (lower_char d) "v"
  | _ => false
  end.

(** [name.replace(/\.csv$/i, "")] *)
Fixpoint strip_csv (name : string) : string :=
  if is_dot_csv name then EmptyString
  else
    match name with
    | EmptyString => EmptyString
    | String c r => String c (strip_csv r)
    end.

Definition message_of (e : exn) : string :=
  match e with
  | Error m => m
  | TypeError m => m
  | Thrown m => m
  end.

(** [handleFile(f)], with the text [content] the reader loads. *)
Definition handleFile (name content : string) (st : State) : State :=
  if negb (endsWith name ".csv") then
    {| file := file st; parsed := parsed st; datasetName := datasetName st;
       tagInput := tagInput st; tags := tags st; status := status st;
       error := "Only CSV files are supported" |}
  else
    match parseCSVContent content with
    | Ok result =>
        {| file := Some name; parsed := Some result; datasetName := strip_csv name;
           tagInput := tagInput st; tags := tags st; status := StatusPreviewing;
           error := "" |}
    | Err err =>
        {| file := Some name; parsed := parsed st; datasetName := strip_csv name;
           tagInput := tagInput st; tags := tags st; status := StatusError;
           error := message_of err |}
    end.

(** [addTag()] *)
Definition addTag (st : State) : State :=
  let t := trim (tagInput st) in
  if negb (t =? "")%string && negb (includes (tags st) t) then
    {| file := file st; parsed := parsed st; datasetName := datasetName st;
       tagInput := ""; tags := (tags st ++ [t])%list; status := status st;
       error := error st |}
  else st.

(** [removeTag(tag)] *)
Definition removeTag (tag : string) (st : State) : State :=
  {| file := file st; parsed := parsed st; datasetName := datasetName st;
     tagInput := tagInput st;
     tags := filter (fun t => negb (t =? tag)%string) (tags st);
     status := status st; error := error st |}.

(** [reset()] *)
Definition reset (st : State) : State := initial.

(** The row inserted into [datasets]. *)
Record NewDataset : Type := {
  ds_name : string;
  ds_tags : list string;
  source_filename : string;
  column_schema : list ColumnInfo;
  row_count : nat;
  ds_status : string
}.

(** The answer to the insert of the dataset, [{ data, error }] after
    [.select().single()]: the created row, known by its id, or an error,
    known by its message. *)
Inductive DatasetResponse : Type :=
  | Created (id : string)
  | Refused (message : string).

(** The store as the page uses it.  The insert of a batch answers with an
    error message or nothing; it is told the offset of the batch. *)
Record Store : Type := {
  insert_dataset : NewDataset -> DatasetResponse;
  insert_records : nat -> list (string * obj) -> option string
}.

(** The calls the page makes to the store, in order. *)
Inductive StoreCall : Type :=
  | InsertDataset (d : NewDataset)
  | InsertRecords (batch : list (string * obj))
  | MarkComplete (id : string).

Record Toast : Type := {
  title : string;
  description : string;
  destructive : bool
}.

Record Outcome : Type := {
  state : State;
  calls : list StoreCall;
  toast : option Toast
}.

Definition batchSize : nat := 500.

(** [for (let i = 0; i < rows.length; i += batchSize) { ... }]: the calls
    made so far, and the error that ended the loop if one did.  The loop
    runs at most [fuel] times. *)
Fixpoint insert_batches (store : Store) (id : string) (rows : list obj)
    (fuel i : nat) (made : list StoreCall) : list StoreCall * option string :=
  match fuel with
  | O => (made, None)
  | S fuel' =>
      if Nat.ltb i (List.length rows) then
        let batch := map (fun row => (id, row)) (slice i (i + batchSize) rows) in
        match insert_records store i batch with
        | Some recError => ((made ++ [InsertRecords batch])%list, Some recError)
        | None =>
            insert_batches store id rows fuel' (i + batchSize)
              (made ++ [InsertRecords batch])%list
        end
      else (made, None)
  end.

Definition import_failed (st : State) (made : list StoreCall) (message : string) : Outcome :=
  {| state := {| file := file st; parsed := parsed st; datasetName := datasetName st;
                 tagInput := tagInput st; tags := tags st; status := StatusError;
                 error := message |};
     calls := made;
     toast := Some {| title := "Import failed"; description := message;
                      destructive := true |} |}.

(** [handleImport()] *)
Definition handleImport (store : Store) (st : State) : Outcome :=
  match parsed st with
  | None => {| state := st; calls := []; toast := None |}
  | Some p =>
      if (trim (datasetName st) =? "")%string
      then {| state := st; calls := []; toast := None |}
      else
        match file st with
        | None => import_failed st [] "Cannot read properties of null (reading 'name')"
        | Some fname =>
            let d := {| ds_name := trim (datasetName st); ds_tags := tags st;
                        source_filename := fname; column_schema := columns p;
                        row_count := totalRows p; ds_status := "processing" |} in
            match insert_dataset store d with
            | Refused dsError => import_failed st [InsertDataset d] dsError
            | Created id =>
                match insert_batches store id (rows p) (List.length (rows p)) 0
                        [InsertDataset d] with
                | (made, Some recError) => import_failed st made recError
                | (made, None) =>
                    {| state := {| file := file st; parsed := parsed st;
                                   datasetName := datasetName st;
                                   tagInput := tagInput st; tags := tags st;
                                   status := StatusComplete; error := error st |};
                       calls := (made ++ [MarkComplete id])%list;
                       toast := Some {| title := "Import complete";
                                        description :=
                                          Num.Z_to_string (Z.of_nat (totalRows p))
                                          ++ " records imported successfully.";
                                        destructive := false |} |}
                end
            end
        end
  end.

(** What the user can do on the page. *)
Inductive Action : Type :=
  | SelectFile (name content : string)
  | TypeName (text : string)
  | TypeTag (text : string)
  | AddTag
  | RemoveTag (tag : string)
  | Import
  | Reset.

Definition step (store : Store) (st : State) (a : Action) : State :=
  match a with
  | SelectFile name content => handleFile name content st
  | TypeName text =>
      {| file := file st; parsed := parsed st; datasetName := text;
         tagInput := tagInput st; tags := tags st; status := status st;
         error := error st |}
  | TypeTag text =>
      {| file := file st; parsed := parsed st; datasetName := datasetName st;
         tagInput := text; tags := tags st; status := status st; error := error st |}
  | AddTag => addTag st
  | RemoveTag tag => removeTag tag st
  | Import => state (handleImport store st)
  | Reset => reset st
  end.

(** The states the page can be in after some actions. *)
Definition reachable (store : Store) (st : State) : Prop :=
  exists actions, st = fold_left (step store) actions initial.

(** The records of the batches sent, in order. *)
Fixpoint records_sent (made : list StoreCall) : list (string * obj) :=
  match made with
  | [] => []
  | InsertRecords batch :: rest => (batch ++ records_sent rest)%list
  | _ :: rest => records_sent rest
  end.

(** The tags as the page keeps them: no tag twice, each trimmed and not
    empty. *)
Definition tags_ok (l : list string) : Prop :=
  NoDup l /\ Forall (fun t => trim t = t /\ t <> "") l.

(** The size a batch may have. *)
Definition batch_ok (batch : list (string * obj)) : Prop :=
  (1 <= List.length batch <= batchSize)%nat.

Fixpoint batches_of (made : list StoreCall) : list (list (string * obj)) :=
  match made with
  | [] => []
  | InsertRecords batch :: rest => batch :: batches_of rest
  | _ :: rest => batches_of rest
  end.

Definition is_mark_complete (c : StoreCall) : bool :=
  match c with MarkComplete _ => true | _ => false end.

End Upload.

(** ** The query page: [sendMessage] *)

Module Chat.
Import Str Std Js Csv Query.

Inductive Role : Type := user | assistant.

Record Message : Type := {
  role : Role;
  content : string;
  results : option (list obj);
  queryPlan : option QueryPlan
}.

(** A row of [datasets] as selected for the assistant:
    [id, name, tags, column_schema, row_count]. *)
Record DatasetSummary : Type := {
  ds_id : string;
  ds_name : string;
  ds_tags : list string;
  ds_column_schema : list ColumnInfo;
  ds_row_count : nat
}.

(** The body sent to the [ai-query] function. *)
Record AiQueryBody : Type := {
  body_message : string;
  body_datasets : list DatasetSummary;
  body_history : list (Role * string)
}.

(** Its answer: [{ message, queryPlan? }]. *)
Record AiResponse : Type := {
  resp_message : string;
  resp_queryPlan : option QueryPlan
}.

(** [{ data, error }] of [functions.invoke]. *)
Inductive InvokeResult : Type :=
  | Invoked (response : AiResponse)
  | InvokeFailed (message : string).

(** The services the page awaits: the datasets query ([data], possibly
    null), the function, and the records query. *)
Record Services : Type := {
  list_datasets : option (list DatasetSummary);
  invoke : AiQueryBody -> InvokeResult;
  fetch : Fetch
}.

Record PageState : Type := {
  messages : list Message;
  input : string;
  isLoading : bool
}.

Record Toast : Type := {
  title : string;
  description : string
}.

Record Outcome : Type := {
  state : PageState;
  toast : option Toast;
  sent : option AiQueryBody
}.

Definition apology : Message :=
  {| role := assistant; content := "Sorry, something went wrong. Please try again.";
     results := None; queryPlan := None |}.

Definition message_of (e : exn) : string :=
  match e with
  | Error m => m
  | TypeError m => m
  | Thrown m => m
  end.

(** [sendMessage()] *)
Definition sendMessage (sv : Services) (st : PageState) : Outcome :=
  if (trim (input st) =? "")%string || isLoading st
  then {| state := st; toast := None; sent := None |}
  else
    let userMsg := {| role := user; content := trim (input st); results := None;
                      queryPlan := None |} in
    let body :=
      {| body_message := content userMsg;
         body_datasets := match list_datasets sv with Some d => d | None => [] end;
         body_history :=
           map (fun m => (role m, content m)) (slice_last 10 (messages st)) |} in
    let finish (m : Message) (t : option Toast) :=
      {| state := {| messages := ((messages st ++ [userMsg]) ++ [m])%list;
                     input := ""; isLoading := false |};
         toast := t; sent := Some body |} in
    let failed (message : string) :=
      finish apology (Some {| title := "Query failed"; description := message |}) in
    match invoke sv body with
    | InvokeFailed fnError => failed fnError
    | Invoked response =>
        match resp_queryPlan response with
        | Some plan =>
            match executeQueryPlan (fetch sv) plan with
            | Ok res =>
                finish {| role := assistant;
                          content :=
                            if (resp_message response =? "")%string
                            then "Found " ++ Num.Z_to_string (Z.of_nat (List.length res))
                                 ++ " results."
                            else resp_message response;
                          results := Some res; queryPlan := Some plan |} None
            | Err err => failed (message_of err)
            end
        | None =>
            finish {| role := assistant; content := resp_message response;
                      results := None; queryPlan := None |} None
        end
    end.

End Chat.

(** * Properties *)

(** ** Strings *)

Module StrFacts.
Import Str.

Lemma append_nil_r (s : string) : s ++ "" = s.
Proof. induction s as [|c s IH]; simpl; [reflexivity | rewrite IH; reflexivity]. Qed.

Lemma append_assoc (a b c : string) : (a ++ b) ++ c = a ++ (b ++ c).
Proof. induction a as [|x a IH]; simpl; [reflexivity | rewrite IH; reflexivity]. Qed.

Lemma has_char_app x (a b : string) :
  has_char x (a ++ b) = has_char x a || has_char x b.
Proof.
  induction a as [|c a IH]; simpl; [reflexivity|].
  rewrite IH, orb_assoc. reflexivity.
Qed.

(** *** [trim] *)

Lemma trimStart_head s c r : trimStart s = String c r -> is_ws c = false.
Proof.
  induction s as [|d s IH]; simpl; [discriminate|].
  destruct (is_ws d) eqn:E; [exact IH|].
  intros H. injection H as <- _. exact E.
Qed.

Lemma trimEnd_head c r : is_ws c = false -> exists r', trimEnd (String c r) = String c r'.
Proof.
  intros H. simpl. destruct (trimEnd r).
  - rewrite H. eexists. reflexivity.
  - eexists. reflexivity.
Qed.

Lemma trimEnd_idem s : trimEnd (trimEnd s) = trimEnd s.
Proof.
  induction s as [|c s IH]; simpl; [reflexivity|].
  destruct (trimEnd s) as [|d t] eqn:E.
  - destruct (is_ws c) eqn:W; simpl; [reflexivity | rewrite W; reflexivity].
  - change (trimEnd (String c (String d t))) with
      (match trimEnd (String d t) with
       | EmptyString => if is_ws c then EmptyString else String c EmptyString
       | r' => String c r'
       end).
    rewrite IH. reflexivity.
Qed.

Lemma trim_idem s : trim (trim s) = trim s.
Proof.
  unfold trim. destruct (trimStart s) as [|c r] eqn:E; [reflexivity|].
  destruct (trimEnd_head c r (trimStart_head _ _ _ E)) as [r' Hr'].
  rewrite Hr'. simpl trimStart. rewrite (trimStart_head _ _ _ E).
  rewrite <- Hr'. apply trimEnd_idem.
Qed.

Lemma has_char_trimStart x s : has_char x (trimStart s) = true -> has_char x s = true.
Proof.
  induction s as [|c s IH]; simpl; [trivial|].
  destruct (is_ws c); simpl; [|trivial].
  intros H. rewrite (IH H). apply orb_true_r.
Qed.

Lemma has_char_trimEnd x s : has_char x (trimEnd s) = true -> has_char x s = true.
Proof.
  induction s as [|c s IH]; simpl; [trivial|].
  destruct (trimEnd s) as [|d t].
  - destruct (is_ws c); simpl; [discriminate|].
    rewrite orb_false_r. intros ->. reflexivity.
  - simpl in *. intros H. apply orb_true_iff in H. destruct H as [->|H]; [reflexivity|].
    rewrite (IH H). apply orb_true_r.
Qed.

Lemma has_char_trim x s : has_char x s = false -> has_char x (trim s) = false.
Proof.
  intros H. destruct (has_char x (trim s)) eqn:E; [|reflexivity].
  unfold trim in E. apply has_char_trimEnd, has_char_trimStart in E. congruence.
Qed.

(** A string that starts with a code unit that is not white space is not
    blank. *)
Lemma nonblank_head c r : is_ws c = false -> nonblank (String c r) = true.
Proof.
  intros H. unfold nonblank, trim. simpl trimStart. rewrite H.
  destruct (trimEnd_head c r H) as [r' ->]. reflexivity.
Qed.

(** *** [split_lines] and [join] *)

Lemma split_lines_no_lf s : has_char LF s = false -> split_lines s = [s].
Proof.
  induction s as [|c s IH]; simpl; [reflexivity|].
  intros H. apply orb_false_iff in H. destruct H as [Hc Hs]. rewrite Hc.
  destruct s as [|c' s']; [reflexivity|].
  assert (Hc' : Ascii.eqb c' LF = false).
  { simpl in Hs. apply orb_false_iff in Hs. tauto. }
  rewrite Hc', andb_false_r. rewrite (IH Hs). reflexivity.
Qed.

Lemma split_lines_app l rest :
  has_char LF l = false -> ends_cr l = false ->
  split_lines (l ++ String LF rest) = l :: split_lines rest.
Proof.
  induction l as [|c l IH]; intros Hlf Hcr.
  - reflexivity.
  - simpl in Hlf. apply orb_false_iff in Hlf. destruct Hlf as [Hc Hl].
    destruct l as [|c' l'].
    + simpl in Hcr. simpl. rewrite Hc, Hcr. simpl. reflexivity.
    + assert (Hc' : Ascii.eqb c' LF = false).
      { simpl in Hl. apply orb_false_iff in Hl. tauto. }
      change (split_lines (String c (String c' l') ++ String LF rest)) with
        (if Ascii.eqb c LF then EmptyString :: split_lines (String c' l' ++ String LF rest)
         else if Ascii.eqb c CR && Ascii.eqb c' LF
              then split_lines (String c' l' ++ String LF rest)
              else match split_lines (String c' l' ++ String LF rest) with
                   | l0 :: ls => String c l0 :: ls
                   | [] => [String c EmptyString]
                   end).
      rewrite Hc, Hc', andb_false_r. rewrite (IH Hl Hcr). reflexivity.
Qed.

Lemma split_lines_join (ls : list string) :
  ls <> [] ->
  (forall l, In l ls -> has_char LF l = false /\ ends_cr l = false) ->
  split_lines (join (String LF "") ls) = ls.
Proof.
  induction ls as [|l ls IH]; intros Hne H; [congruence|].
  destruct (H l (or_introl eq_refl)) as [Hlf Hcr].
  destruct ls as [|l' ls'].
  - simpl. apply split_lines_no_lf. assumption.
  - change (join (String LF "") (l :: l' :: ls')) with
      (l ++ String LF (join (String LF "") (l' :: ls'))).
    rewrite split_lines_app by assumption.
    rewrite IH; [reflexivity | discriminate |].
    intros x Hx. apply H. right. assumption.
Qed.

(** The pieces of [split_lines] hold no LF. *)
Lemma split_lines_has_no_lf s : forall l, In l (split_lines s) -> has_char LF l = false.
Proof.
  induction s as [|c s IH]; simpl.
  - intros l [<-|[]]. reflexivity.
  - destruct (Ascii.eqb c LF) eqn:Hc.
    + intros l [<-|Hl]; [reflexivity | apply IH; assumption].
    + destruct s as [|c' s'].
      * intros l [<-|[]]. simpl. rewrite Hc. reflexivity.
      * destruct (Ascii.eqb c CR && Ascii.eqb c' LF); [exact IH|].
        destruct (split_lines (String c' s')) as [|l0 ls] eqn:E.
        -- intros l [<-|[]]. simpl. rewrite Hc. reflexivity.
        -- intros l [<-|Hl].
           ++ simpl. rewrite Hc. simpl. apply IH. left. reflexivity.
           ++ apply IH. right. assumption.
Qed.

Lemma double_quotes_none s : has_char DQUOTE s = false -> double_quotes s = s.
Proof.
  induction s as [|c s IH]; simpl; [reflexivity|].
  intros H. apply orb_false_iff in H. destruct H as [Hc Hs].
  rewrite Hc, (IH Hs). reflexivity.
Qed.

Lemma has_char_double_quotes x s :
  has_char x s = false -> has_char x (double_quotes s) = false.
Proof.
  induction s as [|c s IH]; simpl; [trivial|].
  intros H. apply orb_false_iff in H. destruct H as [Hc Hs].
  destruct (Ascii.eqb c DQUOTE) eqn:Q; cbn [has_char].
  - apply Ascii.eqb_eq in Q. rewrite <- Q, Hc, (IH Hs). reflexivity.
  - rewrite Hc, (IH Hs). reflexivity.
Qed.

End StrFacts.

(** ** Sequences and results *)

Module SeqFacts.
Import Js.

Lemma subseq_refl {A} (l : list A) : subseq l l.
Proof. induction l; constructor; assumption. Qed.

Lemma subseq_trans {A} (l1 l2 l3 : list A) :
  subseq l1 l2 -> subseq l2 l3 -> subseq l1 l3.
Proof.
  intros H12 H23. revert l1 H12.
  induction H23 as [|x m2 m3 H IH|x m2 m3 H IH]; intros l1 H12.
  - assumption.
  - apply subseq_skip. apply IH. assumption.
  - inversion H12; subst.
    + apply subseq_skip. apply IH. assumption.
    + apply subseq_keep. apply IH. assumption.
Qed.

Lemma subseq_filter {A} (p : A -> bool) (l : list A) : subseq (filter p l) l.
Proof.
  induction l as [|x l IH]; simpl.
  - constructor.
  - destruct (p x); constructor; assumption.
Qed.

Lemma subseq_In {A} (l1 l2 : list A) :
  subseq l1 l2 -> forall x, In x l1 -> In x l2.
Proof.
  induction 1 as [|y m1 m2 H IH|y m1 m2 H IH]; intros x Hx.
  - assumption.
  - right. apply IH. assumption.
  - destruct Hx as [->|Hx]; [left; reflexivity | right; apply IH; assumption].
Qed.

Lemma subseq_length {A} (l1 l2 : list A) :
  subseq l1 l2 -> (List.length l1 <= List.length l2)%nat.
Proof. induction 1; simpl; lia. Qed.

Lemma filter_all {A} (p : A -> bool) (l : list A) :
  (forall x, In x l -> p x = true) -> filter p l = l.
Proof.
  induction l as [|x l IH]; simpl; intros H.
  - reflexivity.
  - rewrite (H x (or_introl eq_refl)). f_equal. apply IH.
    intros y Hy. apply H. right. assumption.
Qed.

Lemma In_firstn {A} (x : A) n : forall l, In x (firstn n l) -> In x l.
Proof.
  induction n as [|n IH]; intros l H; [destruct H|].
  destruct l as [|a l]; [destruct H|].
  destruct H as [->|H]; [left; reflexivity | right; apply IH; assumption].
Qed.

End SeqFacts.

(** ** The filter engine and the executor *)

Module QueryFacts.
Import Js Query SeqFacts.

Section Comparisons.

(** A comparison with NaN on either side is false. *)
Lemma NaN_left op y : relational op Num.NaN y = false.
Proof.
  unfold relational, Num.gt, Num.lt, Num.ge, Num.le, SFltb, SFleb, Num.NaN.
  destruct y; repeat match goal with |- context [if ?b then _ else _] => destruct b end;
    reflexivity.
Qed.

Lemma isNaN_eq x : Num.isNaN x = true -> x = Num.NaN.
Proof. destruct x; simpl; intros H; try discriminate; reflexivity. Qed.

(** Every member of [Object.prototype] converts to NaN. *)
Lemma proto_get_NaN k : ToNumber (proto_get k) = Num.NaN.
Proof.
  unfold proto_get.
  destruct (k =? "__proto__")%string; [vm_compute; reflexivity|].
  destruct (k =? "constructor")%string; [vm_compute; reflexivity|].
  match goal with |- context [existsb ?f ?l] => destruct (existsb f l) eqn:E end;
    [|reflexivity].
  simpl in E.
  repeat (apply orb_true_iff in E; destruct E as [E|E]);
    try discriminate; apply String.eqb_eq in E; subst k; vm_compute; reflexivity.
Qed.

(** [keep] on a relational operator is the comparison of the two
    coercions. *)
Lemma keep_relational filter row :
  is_relational (operator filter) = true ->
  keep filter row =
  relational (operator filter) (ToNumber (get row (column filter)))
             (ToNumber (value filter)).
Proof.
  unfold is_relational, keep, relational. simpl. intros H.
  repeat (apply orb_true_iff in H; destruct H as [H|H]);
    try discriminate; apply String.eqb_eq in H; rewrite H; reflexivity.
Qed.

End Comparisons.

Section Loop.
Variable fetch : Fetch.
Variable plan : QueryPlan.

Let lim := fetch_limit plan.

(** When every fetch succeeds the loop appends each dataset's rows. *)
Lemma run_ok ids acc :
  (forall id, In id ids -> error (fetch id lim) = None) ->
  run fetch plan ids acc =
  Ok (acc ++ flat_map (fun id => dataset_rows plan (fetch id lim)) ids)%list.
Proof.
  revert acc. induction ids as [|id ids IH]; intros acc H; simpl.
  - rewrite app_nil_r. reflexivity.
  - fold lim. rewrite (H id (or_introl eq_refl)).
    rewrite IH by (intros i Hi; apply H; right; assumption).
    rewrite app_assoc. reflexivity.
Qed.

(** The first failing fetch ends the loop with its error. *)
Lemma run_err pre id post e acc :
  (forall i, In i pre -> error (fetch i lim) = None) ->
  error (fetch id lim) = Some e ->
  run fetch plan (pre ++ id :: post) acc = Err (Thrown e).
Proof.
  revert acc. induction pre as [|i pre IH]; intros acc Hpre He; simpl.
  - fold lim. rewrite He. reflexivity.
  - fold lim. rewrite (Hpre i (or_introl eq_refl)).
    apply IH; [|assumption]. intros j Hj. apply Hpre. right. assumption.
Qed.

(** A list with a failing fetch splits at the first one. *)
Lemma first_failure ids :
  (exists id, In id ids /\ error (fetch id lim) <> None) ->
  exists pre id post e,
    ids = (pre ++ id :: post)%list /\
    (forall i, In i pre -> error (fetch i lim) = None) /\
    error (fetch id lim) = Some e.
Proof.
  induction ids as [|a ids IH]; intros [id [Hin Hne]].
  - destruct Hin.
  - destruct (error (fetch a lim)) as [e|] eqn:Ea.
    + exists [], a, ids, e. repeat split; [|assumption]. intros i [].
    + destruct Hin as [->|Hin]; [congruence|].
      destruct (IH (ex_intro _ id (conj Hin Hne))) as (pre & i & post & e & -> & Hpre & He).
      exists (a :: pre), i, post, e. repeat split; [|assumption].
      intros j [<-|Hj]; [assumption | apply Hpre; assumption].
Qed.

End Loop.

Section Filters.

Lemma applyFilters_cons rows f fs :
  applyFilters rows (f :: fs) = applyFilters (filter (keep f) rows) fs.
Proof. reflexivity. Qed.

Lemma applyFilters_subseq fs : forall rows, subseq (applyFilters rows fs) rows.
Proof.
  induction fs as [|f fs IH]; intros rows.
  - apply subseq_refl.
  - rewrite applyFilters_cons.
    eapply subseq_trans; [apply IH | apply subseq_filter].
Qed.

Lemma filter_filter {A} (f g : A -> bool) l :
  filter g (filter f l) = filter (fun x => f x && g x) l.
Proof.
  induction l as [|x l IH]; simpl; [reflexivity|].
  destruct (f x); simpl; [destruct (g x); rewrite IH; reflexivity | exact IH].
Qed.

Lemma applyFilters_forallb fs : forall rows,
  applyFilters rows fs = filter (fun r => forallb (fun f => keep f r) fs) rows.
Proof.
  induction fs as [|f fs IH]; intros rows.
  - simpl. symmetry. apply filter_all. reflexivity.
  - rewrite applyFilters_cons, IH, filter_filter. reflexivity.
Qed.

(** The callback of the code is the filter of the specification. *)
Lemma keep_satisfies f row : keep f row = Spec.satisfies f row.
Proof.
  unfold keep, Spec.satisfies, Spec.operator_of, Spec.lowered, Spec.value_or_empty, nullish_or.
  repeat match goal with
  | |- context [(operator f =? ?s)%string] => destruct (operator f =? s)%string
  end;
  try reflexivity; destruct (get row (column f)); reflexivity.
Qed.

(** The loop over the filters keeps the rows that pass them all. *)
Lemma applyFilters_passes fs rows :
  applyFilters rows fs = filter (Spec.passes fs) rows.
Proof.
  rewrite applyFilters_forallb. apply filter_ext. intros r. unfold Spec.passes.
  induction fs as [|f fs IH]; simpl; [reflexivity|].
  rewrite keep_satisfies, IH. reflexivity.
Qed.

End Filters.

Section Records.

Lemma own_get_absent (o : obj) k : own_get o k = None <-> ~ In k (map fst o).
Proof.
  induction o as [|[a x] o IH]; simpl.
  - tauto.
  - destruct (String.eqb_spec a k) as [->|N].
    + split; [discriminate | intros H; exfalso; apply H; left; reflexivity].
    + rewrite IH. tauto.
Qed.

Lemma own_get_present (o : obj) k v : own_get o k = Some v -> In k (map fst o).
Proof.
  intros H. destruct (in_dec string_dec k (map fst o)) as [I|N]; [assumption|].
  apply own_get_absent in N. congruence.
Qed.

Lemma own_replace_same_keys (o : obj) k v : map fst (own_replace o k v) = map fst o.
Proof.
  induction o as [|[a x] o IH]; simpl; [reflexivity|].
  destruct (a =? k)%string; simpl; [reflexivity | rewrite IH; reflexivity].
Qed.

Lemma own_get_replaced (o : obj) k v k' :
  own_get (own_replace o k v) k' =
  if (k =? k')%string
  then match own_get o k with Some _ => Some v | None => None end
  else own_get o k'.
Proof.
  induction o as [|[a x] o IH]; simpl.
  - destruct (k =? k')%string; reflexivity.
  - destruct (String.eqb_spec a k) as [Ea|Na]; simpl.
    + subst a. destruct (k =? k')%string; reflexivity.
    + rewrite IH. destruct (String.eqb_spec k k') as [E|N'].
      * subst k'. destruct (String.eqb_spec a k); [contradiction | reflexivity].
      * reflexivity.
Qed.

Lemma own_get_appended (o : obj) k v k' :
  own_get (o ++ [(k, v)])%list k' =
  match own_get o k' with
  | Some x => Some x
  | None => if (k =? k')%string then Some v else None
  end.
Proof.
  induction o as [|[a x] o IH]; simpl; [reflexivity|].
  destruct (a =? k')%string; [reflexivity | exact IH].
Qed.

Variable row : obj.

(** One assignment of the projection keeps the record in step with the
    row: distinct keys, all of them requested, each holding what the row
    gives for it, and every requested key but [__proto__] present. *)
Lemma assign_in_step p o done c :
  NoDup (map fst o) ->
  (forall k, In k (map fst o) -> In k done /\ own_get o k = Some (get row k)) ->
  (forall k, In k done -> k <> "__proto__" -> In k (map fst o)) ->
  let o' := snd (assign p o c (get row c)) in
  NoDup (map fst o')
  /\ (forall k, In k (map fst o') ->
        In k (done ++ [c])%list /\ own_get o' k = Some (get row k))
  /\ (forall k, In k (done ++ [c])%list -> k <> "__proto__" -> In k (map fst o')).
Proof.
  intros Hnd Hkeys Hdone. unfold assign.
  assert (Replaced : own_get o c <> None ->
            let o' := own_replace o c (get row c) in
            NoDup (map fst o')
            /\ (forall k, In k (map fst o') ->
                  In k (done ++ [c])%list /\ own_get o' k = Some (get row k))
            /\ (forall k, In k (done ++ [c])%list -> k <> "__proto__" -> In k (map fst o'))).
  { intros Hc. cbv zeta. rewrite own_replace_same_keys. split; [assumption|]. split.
    - intros k Hk. destruct (Hkeys k Hk) as [Hd Hv]. split; [apply in_or_app; tauto|].
      rewrite own_get_replaced. destruct (String.eqb_spec c k) as [->|N]; [|assumption].
      rewrite Hv. reflexivity.
    - intros k Hk Hn. apply in_app_or in Hk. destruct Hk as [Hk|[<-|[]]].
      + apply Hdone; assumption.
      + destruct (own_get o c) eqn:E; [|congruence]. eapply own_get_present; eassumption. }
  assert (Added : own_get o c = None ->
            let o' := (o ++ [(c, get row c)])%list in
            NoDup (map fst o')
            /\ (forall k, In k (map fst o') ->
                  In k (done ++ [c])%list /\ own_get o' k = Some (get row k))
            /\ (forall k, In k (done ++ [c])%list -> k <> "__proto__" -> In k (map fst o'))).
  { intros Hc. cbv zeta. rewrite map_app. cbn [map fst]. split; [|split].
    - apply NoDup_app. repeat split.
      + assumption.
      + repeat constructor. intros [].
      + intros k Hk [<-|[]]. apply own_get_absent in Hc. contradiction.
    - intros k Hk. rewrite own_get_appended. apply in_app_or in Hk.
      destruct Hk as [Hk|[<-|[]]].
      + destruct (Hkeys k Hk) as [Hd Hv]. rewrite Hv. split; [apply in_or_app; tauto | reflexivity].
      + rewrite Hc, String.eqb_refl. split; [apply in_or_app; simpl; tauto | reflexivity].
    - intros k Hk Hn. apply in_or_app. apply in_app_or in Hk.
      destruct Hk as [Hk|Hk]; [left; apply Hdone; assumption | right; assumption]. }
  destruct (own_get o c) eqn:E.
  - apply Replaced. discriminate.
  - destruct (String.eqb_spec c "__proto__") as [->|N].
    + destruct p; [apply Added; reflexivity|].
      cbn [snd]. split; [assumption|]. split.
      * intros k Hk. destruct (Hkeys k Hk). split; [apply in_or_app; tauto | assumption].
      * intros k Hk Hn. apply in_app_or in Hk. destruct Hk as [Hk|[<-|[]]];
          [apply Hdone; assumption | congruence].
    + apply Added. reflexivity.
Qed.

Lemma project_in_step cols : forall p o done,
  NoDup (map fst o) ->
  (forall k, In k (map fst o) -> In k done /\ own_get o k = Some (get row k)) ->
  (forall k, In k done -> k <> "__proto__" -> In k (map fst o)) ->
  let o' := snd (fold_left
                   (fun filtered c => assign (fst filtered) (snd filtered) c (get row c))
                   cols (p, o)) in
  NoDup (map fst o')
  /\ (forall k, In k (map fst o') ->
        In k (done ++ cols)%list /\ own_get o' k = Some (get row k))
  /\ (forall k, In k (done ++ cols)%list -> k <> "__proto__" -> In k (map fst o')).
Proof.
  induction cols as [|c cols IH]; intros p o done Hnd Hkeys Hdone.
  - cbn. rewrite app_nil_r. repeat split; try assumption; apply Hkeys; assumption.
  - cbn [fold_left fst snd].
    destruct (assign_in_step p o done c Hnd Hkeys Hdone) as (H1 & H2 & H3).
    destruct (assign p o c (get row c)) as [p' o'] eqn:E. cbn [fst snd] in *.
    specialize (IH p' o' (done ++ [c])%list H1 H2 H3).
    rewrite <- app_assoc in IH. exact IH.
Qed.

(** The projection of the code is a projection of the specification. *)
Lemma project_row_projection cols :
  Spec.projection_of cols row (project_row cols row).
Proof.
  destruct (project_in_step cols ObjectPrototype [] []) as (H1 & H2 & H3).
  - constructor.
  - intros k [].
  - intros k [].
  - unfold Spec.projection_of, project_row, project_object. split; [exact H1|]. split.
    + intros k Hk. apply (H2 k Hk).
    + intros c Hc Hn. apply H2. apply H3; assumption.
Qed.

End Records.

Section Selection.

Lemma Forall2_map_of {A B} (R : A -> B -> Prop) (f : A -> B) l :
  (forall a, In a l -> R a (f a)) -> Forall2 R l (map f l).
Proof.
  induction l as [|a l IH]; intros H; simpl; constructor.
  - apply H. left. reflexivity.
  - apply IH. intros b Hb. apply H. right. assumption.
Qed.

(** What the loop body makes of the fetched rows of one dataset is what
    the specification asks for. *)
Lemma dataset_rows_selection plan r :
  Spec.selection (filters plan) (columns plan)
    (map row_data (match data r with Some d => d | None => [] end))
    (dataset_rows plan r).
Proof.
  unfold Spec.selection, dataset_rows. rewrite applyFilters_passes.
  set (kept := filter _ _). unfold project, Spec.record_of.
  destruct (columns plan) as [[|c cs]|].
  - rewrite <- (map_id kept) at 2. apply Forall2_map_of. reflexivity.
  - apply Forall2_map_of. intros row _. apply project_row_projection.
  - rewrite <- (map_id kept) at 2. apply Forall2_map_of. reflexivity.
Qed.

(** When every fetch succeeds, the execution returns, dataset after
    dataset, what the specification asks of each. *)
Lemma execute_selects fetch plan :
  (forall id, In id (dataset_ids plan) -> error (fetch id (fetch_limit plan)) = None) ->
  exists groups : list (list obj),
    executeQueryPlan fetch plan = Ok (List.concat groups)
    /\ Forall2
         (fun id group =>
            Spec.selection (filters plan) (columns plan)
              (map row_data
                 (match data (fetch id (fetch_limit plan)) with Some d => d | None => [] end))
              group)
         (dataset_ids plan) groups.
Proof.
  intros H.
  exists (map (fun id => dataset_rows plan (fetch id (fetch_limit plan))) (dataset_ids plan)).
  split.
  - unfold executeQueryPlan. rewrite run_ok by exact H.
    rewrite flat_map_concat_map. reflexivity.
  - apply Forall2_map_of. intros id _. apply dataset_rows_selection.
Qed.

End Selection.

Section EmptyProjection.
Variable fetch : Fetch.
Variables (ids0 : list string) (fs : list QueryFilter) (lim : option Z).

Lemma run_empty_columns ids acc :
  run fetch {| dataset_ids := ids0; filters := fs; columns := Some []; limit := lim |} ids acc =
  run fetch {| dataset_ids := ids0; filters := fs; columns := None; limit := lim |} ids acc.
Proof.
  revert acc. induction ids as [|id ids IH]; intros acc; simpl.
  - reflexivity.
  - unfold fetch_limit; simpl.
    destruct (error (fetch id _)); [reflexivity|]. apply IH.
Qed.

End EmptyProjection.

(** A finished execution means every fetch succeeded. *)
Lemma run_Ok_inv fetch plan ids : forall acc out,
  run fetch plan ids acc = Ok out ->
  forall id, In id ids -> error (fetch id (fetch_limit plan)) = None.
Proof.
  induction ids as [|a ids IH]; intros acc out H id Hin.
  - destruct Hin.
  - simpl in H. destruct (error (fetch a (fetch_limit plan))) eqn:E; [discriminate|].
    destruct Hin as [<-|Hin]; [assumption|]. eapply IH; eassumption.
Qed.

(** *** The claims on the filter engine *)

(** C1, as stated, fails.  The claim: for a relational operator, a row
    with no value at the filter's column (a lookup that gives undefined or
    null) is compared as if it held the empty string.  An empty row and
    the filter [x lt 5] refute it: the lookup gives undefined, which
    converts to NaN and not to the 0 of the empty string. *)
Lemma absent_column_is_not_empty_string :
  ~ (forall (row : obj) (filter : QueryFilter),
       is_relational (operator filter) = true ->
       get row (column filter) = VUndefined \/ get row (column filter) = VNull ->
       keep filter row =
       relational (operator filter) (ToNumber (VStr "")) (ToNumber (value filter))).
Proof.
  intros H.
  specialize (H [] {| column := "x"; operator := "lt"; value := VNum (Num.of_Z 5) |}
                eq_refl (or_introl eq_refl)).
  vm_compute in H. discriminate H.
Qed.

(** C1, amended.  For a relational operator the filter compares the
    numeric coercion of the row's value at the column, looked up without
    an empty-string default, with the numeric coercion of the filter
    value.  A row with no property at the column is excluded whatever the
    operator and the filter value; a null value is compared as the empty
    string is (both convert to 0); and a row value converting to NaN makes
    the comparison false. *)
Theorem relational_filter_coerces_row_value (row : obj) (filter : QueryFilter) :
  is_relational (operator filter) = true ->
  keep filter row =
    relational (operator filter) (ToNumber (get row (column filter)))
               (ToNumber (value filter))
  /\ (own_get row (column filter) = None -> keep filter row = false)
  /\ (get row (column filter) = VNull ->
      keep filter row =
      relational (operator filter) (ToNumber (VStr "")) (ToNumber (value filter)))
  /\ (Num.isNaN (ToNumber (get row (column filter))) = true -> keep filter row = false).
Proof.
  intros Hop. pose proof (keep_relational filter row Hop) as Hk.
  split; [assumption|]. split; [|split].
  - intros Hown. rewrite Hk. unfold get. rewrite Hown, proto_get_NaN. apply NaN_left.
  - intros Hnull. rewrite Hk, Hnull. reflexivity.
  - intros Hnan. rewrite Hk, (isNaN_eq _ Hnan). apply NaN_left.
Qed.

Lemma relational_filter_coerces_row_value_witness :
  keep {| column := "age"; operator := "gte"; value := VStr "18" |} [("name", VStr "Ann")]
  = false.
Proof.
  exact (proj1 (proj2 (relational_filter_coerces_row_value
                         [("name", VStr "Ann")]
                         {| column := "age"; operator := "gte"; value := VStr "18" |}
                         eq_refl)) eq_refl).
Defined.

(** C7.  A filter whose operator is none of the seven recognised ones
    keeps every row: the callback answers true, so filtering by it leaves
    any row sequence as it is. *)
Theorem unknown_operator_passes (row : obj) (filter : QueryFilter) :
  ~ In (operator filter) ["equals"; "contains"; "starts_with"; "gt"; "lt"; "gte"; "lte"] ->
  keep filter row = true /\ forall rows, applyFilters rows [filter] = rows.
Proof.
  intros Hop.
  assert (Hkeep : forall r, keep filter r = true).
  { intros r. unfold keep.
    repeat match goal with
    | |- context [(operator filter =? ?s)%string] =>
        destruct (String.eqb_spec (operator filter) s) as [E|_];
        [exfalso; apply Hop; rewrite E; simpl; tauto|]
    end.
    reflexivity. }
  split; [apply Hkeep|].
  intros rows. unfold applyFilters; simpl. apply filter_all. intros r _. apply Hkeep.
Qed.

Lemma unknown_operator_passes_witness :
  keep {| column := "age"; operator := "between"; value := VStr "18" |} [("age", VStr "3")]
  = true.
Proof.
  refine (proj1 (unknown_operator_passes [("age", VStr "3")]
                   {| column := "age"; operator := "between"; value := VStr "18" |} _)).
  simpl. intros H.
  repeat (destruct H as [H|H]; [discriminate H|]). exact H.
Defined.

(** C9.  Applying any filter list to any row sequence gives a
    subsequence of it: the surviving rows are rows of the input, in their
    order, and no more numerous; the empty filter list changes nothing. *)
Theorem filters_yield_subsequence (F : list QueryFilter) (R : list obj) :
  subseq (applyFilters R F) R
  /\ (forall r, In r (applyFilters R F) -> In r R)
  /\ (List.length (applyFilters R F) <= List.length R)%nat
  /\ applyFilters R [] = R.
Proof.
  pose proof (applyFilters_subseq F R) as H.
  split; [assumption|]. split; [apply subseq_In; assumption|].
  split; [apply subseq_length; assumption | reflexivity].
Qed.

Lemma filters_yield_subsequence_witness :
  In [("state", VStr "CO"); ("n", VStr "7")]
     [[("state", VStr "NY"); ("n", VStr "9")]; [("state", VStr "CO"); ("n", VStr "7")];
      [("state", VStr "co"); ("n", VStr "2")]].
Proof.
  refine (proj1 (proj2 (filters_yield_subsequence
            [ {| column := "state"; operator := "equals"; value := VStr "co" |};
              {| column := "n"; operator := "gt"; value := VNum (Num.of_Z 5) |} ]
            [[("state", VStr "NY"); ("n", VStr "9")]; [("state", VStr "CO"); ("n", VStr "7")];
             [("state", VStr "co"); ("n", VStr "2")]]))
            [("state", VStr "CO"); ("n", VStr "7")] _).
  vm_compute. left. reflexivity.
Defined.

(** *** The claims on the executor *)

(** C3.  When every fetch succeeds, the result is the concatenation, in
    the order of [dataset_ids], of what each dataset gives: its rows as
    fetched with the plan's limit (200 when absent), those of them that
    pass every filter, in their order, each one projected on the plan's
    columns when some are listed.  Filtering and projection are the ones
    of the specification, written apart from the code.  With the ids A and
    B, no filter, no projection and limit 200, fetches of 3 and 2 rows
    give these 5 rows, A's first.  The limit does not bound the result:
    two datasets of 2 rows under limit 2 give 4 rows. *)
Theorem execute_concatenates_datasets :
  (forall (fetch : Fetch) (plan : QueryPlan),
     let lim := match limit plan with Some n => n | None => 200 end in
     (forall id, In id (dataset_ids plan) -> error (fetch id lim) = None) ->
     exists groups : list (list obj),
       executeQueryPlan fetch plan = Ok (List.concat groups)
       /\ Forall2
            (fun id group =>
               Spec.selection (filters plan) (columns plan)
                 (map row_data (match data (fetch id lim) with Some d => d | None => [] end))
                 group)
            (dataset_ids plan) groups)
  /\ (forall (fetch : Fetch) (ra rb : list StoredRow),
        List.length ra = 3%nat -> List.length rb = 2%nat ->
        fetch "A" 200 = {| data := Some ra; error := None |} ->
        fetch "B" 200 = {| data := Some rb; error := None |} ->
        exists out,
          executeQueryPlan fetch
            {| dataset_ids := ["A"; "B"]; filters := []; columns := None;
               limit := Some 200 |} = Ok out
          /\ out = (map row_data ra ++ map row_data rb)%list
          /\ List.length out = 5%nat)
  /\ (exists (fetch : Fetch) (plan : QueryPlan) (n : Z) (out : list obj),
        limit plan = Some n
        /\ (forall id d, data (fetch id n) = Some d -> Z.of_nat (List.length d) <= n)
        /\ executeQueryPlan fetch plan = Ok out
        /\ n < Z.of_nat (List.length out)).
Proof.
  split; [|split].
  - intros fetch plan lim H. apply execute_selects. exact H.
  - intros fetch ra rb Ha Hb Fa Fb.
    exists (map row_data ra ++ map row_data rb)%list.
    split; [|split; [reflexivity|]].
    + unfold executeQueryPlan. rewrite run_ok.
      * simpl. unfold fetch_limit; simpl. rewrite Fa, Fb.
        unfold dataset_rows; simpl. rewrite app_nil_r. reflexivity.
      * unfold fetch_limit; simpl. intros id [<-|[<-|[]]]; [rewrite Fa | rewrite Fb]; reflexivity.
    + rewrite length_app, !length_map, Ha, Hb. reflexivity.
  - exists (fun _ _ => {| data := Some [ {| row_data := [("k", VStr "1")] |};
                                          {| row_data := [("k", VStr "2")] |} ];
                          error := None |}).
    exists {| dataset_ids := ["A"; "B"]; filters := []; columns := None; limit := Some 2 |}.
    exists 2. eexists. split; [reflexivity|]. split; [|split; [reflexivity|]].
    + intros id d Hd. injection Hd as <-. simpl. lia.
    + simpl. lia.
Qed.

Lemma execute_concatenates_datasets_witness :
  executeQueryPlan
    (fun id _ =>
       {| data := Some [ {| row_data := [("name", VStr (id ++ "1")); ("state", VStr "CO")] |};
                         {| row_data := [("name", VStr (id ++ "2")); ("state", VStr "NY")] |};
                         {| row_data := [("name", VStr (id ++ "3")); ("state", VStr "co")] |} ];
          error := None |})
    {| dataset_ids := ["A"; "B"];
       filters := [ {| column := "state"; operator := "equals"; value := VStr "Co" |} ];
       columns := Some ["name"]; limit := None |}
  = Ok [[("name", VStr "A1")]; [("name", VStr "A3")];
        [("name", VStr "B1")]; [("name", VStr "B3")]]
  /\ exists groups : list (list obj),
       executeQueryPlan
         (fun id _ =>
            {| data := Some [ {| row_data := [("name", VStr (id ++ "1")); ("state", VStr "CO")] |};
                              {| row_data := [("name", VStr (id ++ "2")); ("state", VStr "NY")] |};
                              {| row_data := [("name", VStr (id ++ "3")); ("state", VStr "co")] |} ];
               error := None |})
         {| dataset_ids := ["A"; "B"];
            filters := [ {| column := "state"; operator := "equals"; value := VStr "Co" |} ];
            columns := Some ["name"]; limit := None |}
       = Ok (List.concat groups)
       /\ Forall2
            (fun id group =>
               Spec.selection
                 [ {| column := "state"; operator := "equals"; value := VStr "Co" |} ]
                 (Some ["name"])
                 [[("name", VStr (id ++ "1")); ("state", VStr "CO")];
                  [("name", VStr (id ++ "2")); ("state", VStr "NY")];
                  [("name", VStr (id ++ "3")); ("state", VStr "co")]]
                 group)
            ["A"; "B"] groups.
Proof.
  split; [vm_compute; reflexivity|].
  exact (proj1 execute_concatenates_datasets
           (fun id _ =>
              {| data := Some [ {| row_data := [("name", VStr (id ++ "1")); ("state", VStr "CO")] |};
                                {| row_data := [("name", VStr (id ++ "2")); ("state", VStr "NY")] |};
                                {| row_data := [("name", VStr (id ++ "3")); ("state", VStr "co")] |} ];
                 error := None |})
           {| dataset_ids := ["A"; "B"];
              filters := [ {| column := "state"; operator := "equals"; value := VStr "Co" |} ];
              columns := Some ["name"]; limit := None |}
           (fun id _ => eq_refl)).
Defined.

(** C4.  If the fetch of some dataset fails, the execution ends with the
    error of the first failing fetch and gives no records, whatever the
    earlier fetches returned. *)
Theorem failed_fetch_aborts_execution (fetch : Fetch) (plan : QueryPlan) :
  let lim := match limit plan with Some n => n | None => 200 end in
  (exists id, In id (dataset_ids plan) /\ error (fetch id lim) <> None) ->
  exists pre id post e,
    dataset_ids plan = (pre ++ id :: post)%list
    /\ (forall i, In i pre -> error (fetch i lim) = None)
    /\ error (fetch id lim) = Some e
    /\ executeQueryPlan fetch plan = Err (Thrown e)
    /\ (forall records, executeQueryPlan fetch plan <> Ok records).
Proof.
  intros lim H.
  destruct (first_failure fetch plan _ H) as (pre & id & post & e & Hids & Hpre & He).
  assert (Hrun : executeQueryPlan fetch plan = Err (Thrown e)).
  { unfold executeQueryPlan. rewrite Hids. apply run_err; assumption. }
  exists pre, id, post, e. repeat split; try assumption.
  intros records. rewrite Hrun. discriminate.
Qed.

Lemma failed_fetch_aborts_execution_witness :
  exists pre id post e,
    ["A"; "B"; "C"] = (pre ++ id :: post)%list
    /\ (forall i, In i pre ->
          error ((fun id _ =>
                    if (id =? "B")%string then {| data := None; error := Some "timeout" |}
                    else {| data := Some [ {| row_data := [("id", VStr id)] |} ];
                            error := None |}) i 200) = None)
    /\ error ((fun id (_ : Z) =>
                 if (id =? "B")%string then {| data := None; error := Some "timeout" |}
                 else {| data := Some [ {| row_data := [("id", VStr id)] |} ];
                         error := None |}) id 200) = Some e
    /\ executeQueryPlan
         (fun id _ =>
            if (id =? "B")%string then {| data := None; error := Some "timeout" |}
            else {| data := Some [ {| row_data := [("id", VStr id)] |} ]; error := None |})
         {| dataset_ids := ["A"; "B"; "C"]; filters := []; columns := None; limit := None |}
       = Err (Thrown e)
    /\ (forall records,
          executeQueryPlan
            (fun id _ =>
               if (id =? "B")%string then {| data := None; error := Some "timeout" |}
               else {| data := Some [ {| row_data := [("id", VStr id)] |} ];
                       error := None |})
            {| dataset_ids := ["A"; "B"; "C"]; filters := []; columns := None;
               limit := None |} <> Ok records).
Proof.
  refine (failed_fetch_aborts_execution
            (fun id _ =>
               if (id =? "B")%string then {| data := None; error := Some "timeout" |}
               else {| data := Some [ {| row_data := [("id", VStr id)] |} ];
                       error := None |})
            {| dataset_ids := ["A"; "B"; "C"]; filters := []; columns := None;
               limit := None |} _).
  exists "B". split; [simpl; tauto | simpl; discriminate].
Defined.

(** C10.  A plan whose [columns] is the empty sequence runs as the plan
    without [columns]: the projection is skipped and every returned record
    is a fetched record with all its properties, not the empty record that
    projecting on no column would give. *)
Theorem empty_columns_skip_projection
    (fetch : Fetch) (ids : list string) (fs : list QueryFilter) (lim : option Z) :
  let with_empty := {| dataset_ids := ids; filters := fs; columns := Some []; limit := lim |} in
  let without := {| dataset_ids := ids; filters := fs; columns := None; limit := lim |} in
  executeQueryPlan fetch with_empty = executeQueryPlan fetch without
  /\ (forall rows, project (Some []) rows = rows)
  /\ (forall row, project_row [] row = [])
  /\ (forall out,
        executeQueryPlan fetch with_empty = Ok out ->
        out = flat_map
                (fun id =>
                   applyFilters
                     (map row_data
                        (match data (fetch id (fetch_limit with_empty)) with
                         | Some d => d
                         | None => []
                         end)) fs) ids).
Proof.
  intros with_empty without. split; [|split; [|split]].
  - apply run_empty_columns.
  - reflexivity.
  - reflexivity.
  - intros out H. unfold executeQueryPlan in H.
    pose proof (run_Ok_inv _ _ _ _ _ H) as Hall.
    rewrite run_ok in H by exact Hall. injection H as <-. reflexivity.
Qed.

Lemma empty_columns_skip_projection_witness :
  [[("name", VStr "Acme"); ("state", VStr "CO")]] =
  flat_map
    (fun id =>
       applyFilters
         (map row_data
            (match data ((fun (_ : string) (_ : Z) =>
                            {| data := Some [ {| row_data := [("name", VStr "Acme");
                                                              ("state", VStr "CO")] |} ];
                               error := None |}) id 200) with
             | Some d => d
             | None => []
             end)) []) ["A"].
Proof.
  exact (proj2 (proj2 (proj2 (empty_columns_skip_projection
           (fun _ _ => {| data := Some [ {| row_data := [("name", VStr "Acme");
                                                          ("state", VStr "CO")] |} ];
                          error := None |})
           ["A"] [] None))) _ eq_refl).
Defined.

End QueryFacts.

(** ** The CSV library *)

Module CsvFacts.
Import Str Js Csv StrFacts SeqFacts.

(** *** [parseLine] *)

Lemma parseLine_from_nil res cur q :
  parseLine_from "" res cur q = (res ++ [trim cur])%list.
Proof. reflexivity. Qed.

Lemma parseLine_from_cons c rest res cur q :
  parseLine_from (String c rest) res cur q =
  if Ascii.eqb c DQUOTE then
    match rest with
    | String next rest' =>
        if q && Ascii.eqb next DQUOTE
        then parseLine_from rest' res (cur ++ String DQUOTE "") q
        else parseLine_from rest res cur (negb q)
    | EmptyString => parseLine_from rest res cur (negb q)
    end
  else if Ascii.eqb c COMMA && negb q
  then parseLine_from rest (res ++ [trim cur])%list "" q
  else parseLine_from rest res (cur ++ String c "") q.
Proof. reflexivity. Qed.

Lemma field_ok_trim cur : has_char LF cur = false -> field_ok (trim cur).
Proof. intros H. split; [apply trim_idem | apply has_char_trim; assumption]. Qed.

Lemma field_ok_empty : field_ok "".
Proof. split; reflexivity. Qed.

Lemma parseLine_from_fields n : forall line res cur q,
  (String.length line <= n)%nat ->
  has_char LF line = false -> has_char LF cur = false ->
  Forall field_ok res ->
  Forall field_ok (parseLine_from line res cur q).
Proof.
  induction n as [|n IH]; intros line res cur q Hlen Hline Hcur Hres.
  - destruct line; [|simpl in Hlen; lia].
    rewrite parseLine_from_nil. apply Forall_app. split; [assumption|].
    constructor; [apply field_ok_trim; assumption | constructor].
  - destruct line as [|c rest].
    + rewrite parseLine_from_nil. apply Forall_app. split; [assumption|].
      constructor; [apply field_ok_trim; assumption | constructor].
    + rewrite parseLine_from_cons.
      simpl in Hlen. cbn [has_char] in Hline.
      apply orb_false_iff in Hline. destruct Hline as [Hc Hrest].
      assert (Hpush : has_char LF (cur ++ String c "") = false).
      { rewrite has_char_app, Hcur. cbn [has_char]. rewrite Hc. reflexivity. }
      destruct (Ascii.eqb c DQUOTE) eqn:Q.
      * destruct rest as [|next rest'].
        -- apply IH; [simpl; lia | reflexivity | assumption | assumption].
        -- destruct (q && Ascii.eqb next DQUOTE).
           ++ apply IH; [simpl in *; lia | | | assumption].
              ** cbn [has_char] in Hrest. apply orb_false_iff in Hrest. tauto.
              ** apply Ascii.eqb_eq in Q. rewrite <- Q. assumption.
           ++ apply IH; [lia | assumption | assumption | assumption].
      * destruct (Ascii.eqb c COMMA && negb q).
        -- apply IH; [lia | assumption | reflexivity |].
           apply Forall_app. split; [assumption|].
           constructor; [apply field_ok_trim; assumption | constructor].
        -- apply IH; [lia | assumption | assumption | assumption].
Qed.

Lemma parseLine_fields line :
  has_char LF line = false -> Forall field_ok (parseLine line).
Proof.
  intros H. unfold parseLine.
  apply (parseLine_from_fields (String.length line)); auto.
Qed.

(** [parseLine] gives at least one field. *)
Lemma parseLine_from_length n : forall line res cur q,
  (String.length line <= n)%nat ->
  (List.length res < List.length (parseLine_from line res cur q))%nat.
Proof.
  induction n as [|n IH]; intros line res cur q Hlen.
  - destruct line; [|simpl in Hlen; lia].
    rewrite parseLine_from_nil, length_app. simpl. lia.
  - destruct line as [|c rest].
    + rewrite parseLine_from_nil, length_app. simpl. lia.
    + rewrite parseLine_from_cons. simpl in Hlen.
      destruct (Ascii.eqb c DQUOTE).
      * destruct rest as [|next rest']; [apply IH; simpl; lia|].
        destruct (q && Ascii.eqb next DQUOTE); apply IH; simpl in *; lia.
      * destruct (Ascii.eqb c COMMA && negb q).
        -- eapply Nat.lt_trans; [|apply IH; lia]. rewrite length_app. simpl. lia.
        -- apply IH; lia.
Qed.

Lemma parseLine_nonempty line : parseLine line <> [].
Proof.
  unfold parseLine. intros H.
  pose proof (parseLine_from_length (String.length line) line [] "" false (le_n _)) as L.
  rewrite H in L. simpl in L. lia.
Qed.

(** *** Reading back a line of quoted fields *)

(** Inside quotes, the escaped text of a field followed by the closing
    quote adds the field to the current buffer. *)
Lemma parseLine_in_quotes f : forall k res cur,
  starts_with_quote k = false ->
  parseLine_from (double_quotes f ++ String DQUOTE k) res cur true =
  parseLine_from k res (cur ++ f) false.
Proof.
  induction f as [|c f IH]; intros k res cur Hk.
  - cbn [double_quotes append]. rewrite parseLine_from_cons, Ascii.eqb_refl.
    rewrite append_nil_r.
    destruct k as [|c2 k']; [reflexivity|].
    simpl in Hk. rewrite Hk. reflexivity.
  - cbn [double_quotes]. destruct (Ascii.eqb c DQUOTE) eqn:Q.
    + cbn [append]. rewrite parseLine_from_cons, Ascii.eqb_refl.
      cbn [andb].
      rewrite IH by assumption. rewrite append_assoc.
      apply Ascii.eqb_eq in Q. rewrite Q. reflexivity.
    + cbn [append]. rewrite parseLine_from_cons, Q.
      rewrite andb_false_r. rewrite IH by assumption.
      rewrite append_assoc. reflexivity.
Qed.

(** A quoted field read from outside quotes. *)
Lemma parseLine_quoted f k res :
  starts_with_quote k = false ->
  parseLine_from (quoted (double_quotes f) ++ k) res "" false =
  parseLine_from k res f false.
Proof.
  intros Hk. unfold quoted. cbn [append].
  rewrite parseLine_from_cons, Ascii.eqb_refl.
  rewrite append_assoc. cbn [append].
  destruct (double_quotes f ++ String DQUOTE k) as [|c r] eqn:E.
  - destruct (double_quotes f); discriminate E.
  - cbn [andb negb]. rewrite <- E. apply parseLine_in_quotes. assumption.
Qed.

(** A line of quoted fields separated by commas reads back as the fields,
    trimmed. *)
Lemma parseLine_join_quoted (fs : list string) : forall res,
  fs <> [] ->
  parseLine_from (join "," (map (fun f => quoted (double_quotes f)) fs)) res "" false =
  (res ++ map trim fs)%list.
Proof.
  induction fs as [|f fs IH]; intros res Hne; [congruence|].
  destruct fs as [|f' fs'].
  - cbn [map join]. rewrite <- (append_nil_r (quoted (double_quotes f))).
    rewrite parseLine_quoted by reflexivity. reflexivity.
  - change (join "," (map (fun f => quoted (double_quotes f)) (f :: f' :: fs'))) with
      (quoted (double_quotes f) ++
       String COMMA (join "," (map (fun f => quoted (double_quotes f)) (f' :: fs')))).
    rewrite parseLine_quoted by reflexivity.
    rewrite parseLine_from_cons.
    change (Ascii.eqb COMMA DQUOTE) with false. cbv iota.
    rewrite Ascii.eqb_refl. cbn [andb negb].
    rewrite IH by discriminate.
    rewrite <- app_assoc. reflexivity.
Qed.

(** *** Objects built by assignment *)

Lemma own_get_None o k :
  own_get o k = None <-> existsb (String.eqb k) (map fst o) = false.
Proof.
  induction o as [|[k' v] o IH]; simpl; [tauto|].
  rewrite (String.eqb_sym k k').
  destruct (k' =? k)%string; simpl; [split; discriminate | exact IH].
Qed.

Lemma own_replace_keys o k v : map fst (own_replace o k v) = map fst o.
Proof.
  induction o as [|[k' v'] o IH]; simpl; [reflexivity|].
  destruct (k' =? k)%string; simpl; [reflexivity | rewrite IH; reflexivity].
Qed.

Lemma set_keys o k v : map fst (set o k v) = add_key (map fst o) k.
Proof.
  unfold set, add_key.
  destruct (own_get o k) eqn:E.
  - destruct (existsb (String.eqb k) (map fst o)) eqn:X.
    + apply own_replace_keys.
    + apply own_get_None in X. congruence.
  - rewrite (proj1 (own_get_None o k) E).
    destruct (k =? "__proto__")%string; [reflexivity|].
    rewrite map_app. reflexivity.
Qed.

Lemma fill_row_keys hs : forall idx vs o,
  map fst (fill_row hs idx vs o) = fold_left add_key hs (map fst o).
Proof.
  induction hs as [|h hs IH]; intros idx vs o; simpl; [reflexivity|].
  rewrite IH, set_keys. reflexivity.
Qed.

Lemma existsb_eqb_In k ks : existsb (String.eqb k) ks = true <-> In k ks.
Proof.
  rewrite existsb_exists. split.
  - intros (x & Hx & E). apply String.eqb_eq in E. subst. assumption.
  - intros H. exists k. split; [assumption | apply String.eqb_refl].
Qed.

Lemma add_key_NoDup ks h : NoDup ks -> NoDup (add_key ks h).
Proof.
  intros H. unfold add_key.
  destruct (existsb (String.eqb h) ks) eqn:X; [assumption|].
  destruct (h =? "__proto__")%string; [assumption|].
  apply NoDup_app; [assumption | constructor; [intros [] | constructor] |].
  intros x Hx [<-|[]]. apply existsb_eqb_In in Hx. congruence.
Qed.

Lemma add_key_In ks h x : In x (add_key ks h) -> In x ks \/ (x = h /\ h <> "__proto__").
Proof.
  unfold add_key.
  destruct (existsb (String.eqb h) ks); [tauto|].
  destruct (String.eqb_spec h "__proto__"); [tauto|].
  intros H. apply in_app_or in H. destruct H as [H|[<-|[]]]; tauto.
Qed.

Lemma add_key_keeps ks h x : In x ks -> In x (add_key ks h).
Proof.
  unfold add_key. intros H.
  destruct (existsb (String.eqb h) ks); [assumption|].
  destruct (h =? "__proto__")%string; [assumption|].
  apply in_or_app. tauto.
Qed.

Lemma add_key_adds ks h : h <> "__proto__" -> In h (add_key ks h).
Proof.
  unfold add_key. intros H.
  destruct (existsb (String.eqb h) ks) eqn:X; [apply existsb_eqb_In; assumption|].
  destruct (String.eqb_spec h "__proto__"); [contradiction|].
  apply in_or_app. right. left. reflexivity.
Qed.

Lemma fold_add_key_NoDup hs : forall ks, NoDup ks -> NoDup (fold_left add_key hs ks).
Proof.
  induction hs as [|h hs IH]; intros ks H; simpl; [assumption|].
  apply IH, add_key_NoDup, H.
Qed.

Lemma fold_add_key_keeps hs : forall ks x, In x ks -> In x (fold_left add_key hs ks).
Proof.
  induction hs as [|h hs IH]; intros ks x H; simpl; [assumption|].
  apply IH, add_key_keeps, H.
Qed.

Lemma fold_add_key_adds hs : forall ks h,
  In h hs -> h <> "__proto__" -> In h (fold_left add_key hs ks).
Proof.
  induction hs as [|a hs IH]; intros ks h Hin Hne; [destruct Hin|].
  simpl. destruct Hin as [->|Hin].
  - apply fold_add_key_keeps, add_key_adds, Hne.
  - apply IH; assumption.
Qed.

Lemma fold_add_key_no_proto hs : forall ks,
  ~ In "__proto__" ks -> ~ In "__proto__" (fold_left add_key hs ks).
Proof.
  induction hs as [|h hs IH]; intros ks H; simpl; [assumption|].
  apply IH. intros Hin. apply add_key_In in Hin. destruct Hin as [Hin|[E N]]; [tauto|].
  apply N. symmetry. exact E.
Qed.

(** With distinct keys, a lookup finds each entry. *)
Lemma own_get_entry o : NoDup (map fst o) ->
  forall k v, In (k, v) o -> own_get o k = Some v.
Proof.
  induction o as [|[k' v'] o IH]; intros Hnd k v Hin; [destruct Hin|].
  simpl in Hnd. inversion Hnd as [|x l Hnotin Hnd']; subst.
  simpl. destruct Hin as [E|Hin].
  - injection E as -> ->. rewrite String.eqb_refl. reflexivity.
  - destruct (String.eqb_spec k' k) as [->|_].
    + exfalso. apply Hnotin. apply (in_map fst) in Hin. exact Hin.
    + apply IH; assumption.
Qed.

Lemma retag_self o : NoDup (map fst o) -> retag o (map fst o) = o.
Proof.
  intros Hnd. unfold retag. rewrite map_map.
  rewrite <- (map_id o) at 2. apply map_ext_in.
  intros [k v] Hin. simpl. unfold get. rewrite (own_get_entry o Hnd k v Hin). reflexivity.
Qed.

Lemma own_replace_retag r ks h : own_replace (retag r ks) h (get r h) = retag r ks.
Proof.
  induction ks as [|k ks IH]; simpl; [reflexivity|].
  destruct (String.eqb_spec k h) as [->|_]; [reflexivity|].
  rewrite IH. reflexivity.
Qed.

Lemma retag_keys r ks : map fst (retag r ks) = ks.
Proof. unfold retag. rewrite map_map. simpl. apply map_id. Qed.

(** Assigning to an object that agrees with [r] a value taken from [r]
    gives an object that agrees with [r]. *)
Lemma set_retag r ks h :
  set (retag r ks) h (get r h) = retag r (add_key ks h).
Proof.
  unfold set, add_key.
  destruct (own_get (retag r ks) h) eqn:E.
  - destruct (existsb (String.eqb h) ks) eqn:X.
    + apply own_replace_retag.
    + pose proof (proj2 (own_get_None (retag r ks) h)) as N.
      rewrite retag_keys in N. rewrite (N X) in E. discriminate E.
  - apply own_get_None in E. rewrite retag_keys in E. rewrite E.
    destruct (h =? "__proto__")%string; [reflexivity|].
    unfold retag. rewrite map_app. reflexivity.
Qed.

Lemma fold_set_retag r (val : string -> string) hs : forall ks,
  (forall h, In h hs -> get r h = VStr (val h)) ->
  fold_left (fun o h => set o h (VStr (val h))) hs (retag r ks) =
  retag r (fold_left add_key hs ks).
Proof.
  induction hs as [|h hs IH]; intros ks H; simpl; [reflexivity|].
  rewrite <- (H h (or_introl eq_refl)), set_retag.
  apply IH. intros x Hx. apply H. right. assumption.
Qed.

Lemma fill_row_fold (val : string -> string) hs : forall pre o,
  fill_row hs (List.length pre) (map val (pre ++ hs)) o =
  fold_left (fun o h => set o h (VStr (val h))) hs o.
Proof.
  induction hs as [|h hs IH]; intros pre o; simpl; [reflexivity|].
  replace (nth (List.length pre) (map val (pre ++ h :: hs)) "") with (val h).
  - replace (pre ++ h :: hs)%list with ((pre ++ [h]) ++ hs)%list
      by (rewrite <- app_assoc; reflexivity).
    replace (S (List.length pre)) with (List.length (pre ++ [h])%list)
      by (rewrite length_app; simpl; lia).
    apply IH.
  - rewrite map_app. simpl map.
    rewrite <- (length_map val pre). rewrite nth_middle. reflexivity.
Qed.

(** *** The rows of the parser *)

Lemma set_row_ok o k s : row_ok o -> field_ok s -> row_ok (set o k (VStr s)).
Proof.
  intros Ho Hs. unfold set.
  destruct (own_get o k).
  - clear -Ho Hs. induction o as [|[k' v'] o IH]; simpl; [constructor|].
    inversion Ho; subst.
    destruct (k' =? k)%string.
    + constructor; [exists s; split; [reflexivity | assumption] | assumption].
    + constructor; [assumption | apply IH; assumption].
  - destruct (k =? "__proto__")%string; [assumption|].
    apply Forall_app. split; [assumption|].
    constructor; [exists s; split; [reflexivity | assumption] | constructor].
Qed.

Lemma nth_field_ok vs idx : Forall field_ok vs -> field_ok (nth idx vs "").
Proof.
  intros H. destruct (Nat.lt_ge_cases idx (List.length vs)) as [L|G].
  - rewrite Forall_forall in H. apply H. apply nth_In. assumption.
  - rewrite nth_overflow by assumption. split; reflexivity.
Qed.

Lemma fill_row_ok hs : forall idx vs o,
  Forall field_ok vs -> row_ok o -> row_ok (fill_row hs idx vs o).
Proof.
  induction hs as [|h hs IH]; intros idx vs o Hvs Ho; simpl; [assumption|].
  apply IH; [assumption|]. apply set_row_ok; [assumption | apply nth_field_ok; assumption].
Qed.

Section MadeRow.
Variables (hs vs : list string).
Hypothesis Hvs : Forall field_ok vs.

Let r := make_row hs vs.

Lemma make_row_keys : map fst r = fold_left add_key hs [].
Proof. apply fill_row_keys. Qed.

Lemma make_row_NoDup : NoDup (map fst r).
Proof. rewrite make_row_keys. apply fold_add_key_NoDup. constructor. Qed.

Lemma make_row_ok : row_ok r.
Proof. apply fill_row_ok; [assumption | constructor]. Qed.

(** The row has no own [__proto__], so that reading it gives the
    prototype. *)
Lemma make_row_proto : get r "__proto__" = VObj "[object Object]".
Proof.
  unfold get.
  assert (N : own_get r "__proto__" = None).
  { apply own_get_None. destruct (existsb _ _) eqn:X; [|reflexivity].
    apply existsb_eqb_In in X. rewrite make_row_keys in X.
    exfalso. revert X. apply fold_add_key_no_proto. intros []. }
  rewrite N. reflexivity.
Qed.

(** Every other header is an own property holding a field. *)
Lemma make_row_get h :
  In h hs -> h <> "__proto__" -> get r h = VStr (cell r h) /\ field_ok (cell r h).
Proof.
  intros Hin Hne.
  assert (K : In h (map fst r)).
  { rewrite make_row_keys. apply fold_add_key_adds; assumption. }
  apply in_map_iff in K. destruct K as ([k v] & E & Hkv). simpl in E. subst k.
  pose proof make_row_ok as Hok. unfold row_ok in Hok. rewrite Forall_forall in Hok.
  destruct (Hok _ Hkv) as (s & Es & Fs). simpl in Es. subst v.
  unfold cell, get. rewrite (own_get_entry r make_row_NoDup h (VStr s) Hkv).
  simpl. split; [reflexivity | assumption].
Qed.

(** Building the row again from its own cells gives the same row. *)
Lemma make_row_again :
  ~ In "__proto__" hs -> make_row hs (map (cell r) hs) = r.
Proof.
  intros Hp. unfold make_row.
  change 0%nat with (List.length (@nil string)).
  change (map (cell r) hs) with (map (cell r) ([] ++ hs)%list).
  rewrite fill_row_fold.
  change (@nil (string * jsval)) with (retag r []).
  rewrite fold_set_retag.
  - rewrite <- make_row_keys. apply retag_self, make_row_NoDup.
  - intros h Hh. apply make_row_get; [assumption|]. intros ->. contradiction.
Qed.

End MadeRow.

(** *** The lines [generateCSVContent] writes *)

Lemma ends_cr_snoc t c : ends_cr (t ++ String c "") = Ascii.eqb c CR.
Proof.
  induction t as [|d t IH]; [reflexivity|].
  destruct t as [|d' t']; [reflexivity|]. exact IH.
Qed.

Lemma join_quoted_shape (fs : list string) :
  fs <> [] ->
  exists t, join "," (map (fun f => quoted (double_quotes f)) fs) =
            String DQUOTE (t ++ String DQUOTE "").
Proof.
  induction fs as [|f fs IH]; intros Hne; [congruence|].
  destruct fs as [|f' fs'].
  - exists (double_quotes f). reflexivity.
  - destruct IH as [t Ht]; [discriminate|].
    change (join "," (map (fun f => quoted (double_quotes f)) (f :: f' :: fs'))) with
      (quoted (double_quotes f) ++
       String COMMA (join "," (map (fun f => quoted (double_quotes f)) (f' :: fs')))).
    rewrite Ht. unfold quoted.
    exists (double_quotes f ++ String DQUOTE (String COMMA (String DQUOTE t))).
    cbn [append]. f_equal. rewrite !append_assoc. reflexivity.
Qed.

Lemma join_quoted_nonblank fs :
  fs <> [] -> nonblank (join "," (map (fun f => quoted (double_quotes f)) fs)) = true.
Proof.
  intros H. destruct (join_quoted_shape fs H) as [t ->].
  apply nonblank_head. reflexivity.
Qed.

Lemma join_quoted_ends fs :
  fs <> [] -> ends_cr (join "," (map (fun f => quoted (double_quotes f)) fs)) = false.
Proof.
  intros H. destruct (join_quoted_shape fs H) as [t ->].
  change (String DQUOTE (t ++ String DQUOTE "")) with
    ((String DQUOTE t) ++ String DQUOTE "").
  apply ends_cr_snoc.
Qed.

Lemma join_quoted_no_lf fs :
  (forall f, In f fs -> has_char LF f = false) ->
  has_char LF (join "," (map (fun f => quoted (double_quotes f)) fs)) = false.
Proof.
  induction fs as [|f fs IH]; intros H; [reflexivity|].
  assert (Hq : has_char LF (quoted (double_quotes f)) = false).
  { unfold quoted. cbn [has_char]. rewrite has_char_app.
    rewrite (has_char_double_quotes LF f (H f (or_introl eq_refl))). reflexivity. }
  destruct fs as [|f' fs']; [exact Hq|].
  change (join "," (map (fun f => quoted (double_quotes f)) (f :: f' :: fs'))) with
    (quoted (double_quotes f) ++
     String COMMA (join "," (map (fun f => quoted (double_quotes f)) (f' :: fs')))).
  rewrite has_char_app, Hq. cbn [has_char orb].
  rewrite IH; [reflexivity|]. intros x Hx. apply H. right. assumption.
Qed.

(** *** [mapM] *)

Lemma mapM_Ok_inv {A B} (f : A -> result B) l : forall bs,
  mapM f l = Ok bs -> forall a, In a l -> exists b, f a = Ok b.
Proof.
  induction l as [|x l IH]; intros bs H a Hin; [destruct Hin|].
  simpl in H. destruct (f x) as [b|e] eqn:Fx; [|discriminate].
  simpl in H. destruct (mapM f l) as [bs'|e] eqn:M; [|discriminate].
  destruct Hin as [<-|Hin]; [exists b; assumption | eapply IH; [reflexivity | assumption]].
Qed.

Lemma mapM_all_Ok {A B} (f : A -> result B) l :
  (forall a, In a l -> exists b, f a = Ok b) -> exists bs, mapM f l = Ok bs.
Proof.
  induction l as [|x l IH]; intros H; [exists []; reflexivity|].
  destruct (H x (or_introl eq_refl)) as [b Hb].
  destruct IH as [bs Hbs]; [intros a Ha; apply H; right; assumption|].
  exists (b :: bs). simpl. rewrite Hb. simpl. rewrite Hbs. reflexivity.
Qed.

Lemma mapM_Err {A B} (f : A -> result B) l e :
  (exists a, In a l /\ f a = Err e) ->
  (forall a e', In a l -> f a = Err e' -> e' = e) ->
  mapM f l = Err e.
Proof.
  induction l as [|x l IH]; intros [a [Hin Ha]] Hsame; [destruct Hin|].
  simpl. destruct (f x) as [b|e'] eqn:Fx.
  - simpl. rewrite IH; [reflexivity | |].
    + destruct Hin as [<-|Hin]; [congruence | exists a; tauto].
    + intros y e'' Hy. apply Hsame. right. assumption.
  - simpl. rewrite (Hsame x e' (or_introl eq_refl) Fx). reflexivity.
Qed.

(** *** The columns *)

Lemma strings_of_map (g : obj -> jsval) (val : obj -> string) rows :
  (forall r, In r rows -> g r = VStr (val r)) ->
  strings_of (map g rows) = Some (map val rows).
Proof.
  induction rows as [|r rows IH]; intros H; [reflexivity|].
  simpl. rewrite (H r (or_introl eq_refl)).
  rewrite IH; [reflexivity|]. intros x Hx. apply H. right. assumption.
Qed.

Section Columns.
Variables (hs : list string) (others : list string).

Let rows := map (fun l => make_row hs (parseLine l)) others.

Lemma column_info_proto n :
  (0 < n)%nat -> rows <> [] ->
  column_info rows n "__proto__" = Err (TypeError "v.trim is not a function").
Proof.
  intros Hn Hrows. unfold column_info.
  destruct n as [|n]; [lia|].
  subst rows. destruct others as [|l ls]; [exfalso; apply Hrows; reflexivity|].
  cbn [map firstn]. rewrite make_row_proto. reflexivity.
Qed.

Lemma column_info_other n h :
  In h hs -> h <> "__proto__" ->
  (forall l, In l others -> has_char LF l = false) ->
  exists c, column_info rows n h = Ok c.
Proof.
  intros Hin Hne Hlf. unfold column_info.
  rewrite (strings_of_map _ (fun r => cell r h)).
  - eexists. reflexivity.
  - intros r Hr. apply In_firstn in Hr. subst rows.
    apply in_map_iff in Hr. destruct Hr as (l & <- & Hl).
    destruct (make_row_get hs (parseLine l) (parseLine_fields l (Hlf l Hl)) h Hin Hne)
      as [E _].
    rewrite E. reflexivity.
Qed.

Lemma column_info_error n h e : column_info rows n h = Err e ->
  e = TypeError "v.trim is not a function".
Proof.
  unfold column_info. destruct (strings_of _); [discriminate|].
  intros H. injection H as <-. reflexivity.
Qed.

End Columns.

(** *** What a successful parse is made of *)

Lemma filter_lines_no_lf content l :
  In l (filter nonblank (split_lines content)) -> has_char LF l = false.
Proof.
  intros H. apply filter_In in H. destruct H as [H _].
  eapply split_lines_has_no_lf. eassumption.
Qed.

Lemma parse_Ok_inv content p :
  parseCSVContent content = Ok p ->
  exists first others,
    filter nonblank (split_lines content) = first :: others
    /\ headers p = parseLine first
    /\ rows p = map (fun l => make_row (parseLine first) (parseLine l)) others
    /\ forallb (fun h => (h =? "")%string) (parseLine first) = false
    /\ mapM (column_info (rows p) (Nat.min (List.length (rows p)) 100)) (parseLine first)
       = Ok (columns p)
    /\ totalRows p = List.length (rows p).
Proof.
  unfold parseCSVContent.
  destruct (filter nonblank (split_lines content)) as [|first others]; [discriminate|].
  destruct (Nat.eqb _ 0 || forallb _ _) eqn:Hh; [discriminate|].
  apply orb_false_iff in Hh. destruct Hh as [_ Hall].
  destruct (mapM _ _) as [cols|e] eqn:M; [|discriminate].
  simpl. intros H. injection H as <-. simpl.
  exists first, others. repeat split; assumption.
Qed.

Lemma parse_from_lines content first others :
  filter nonblank (split_lines content) = first :: others ->
  parseCSVContent content =
  if Nat.eqb (List.length (parseLine first)) 0
     || forallb (fun h => (h =? "")%string) (parseLine first)
  then Err (Error "CSV must have headers")
  else
    let rows := map (fun l => make_row (parseLine first) (parseLine l)) others in
    bind (mapM (column_info rows (Nat.min (List.length rows) 100)) (parseLine first))
      (fun columns =>
         Ok {| headers := parseLine first; rows := rows; columns := columns;
               totalRows := List.length rows |}).
Proof. intros H. unfold parseCSVContent. rewrite H. reflexivity. Qed.

Lemma generate_nonempty rows cols :
  rows <> [] ->
  generateCSVContent rows (Some cols) =
  join (String LF "") (join "," (map quoted cols) :: map (data_line cols) rows).
Proof. destruct rows; [congruence | reflexivity]. Qed.

Lemma data_line_fields cols row :
  data_line cols row =
  join "," (map (fun f => quoted (double_quotes f)) (map (cell row) cols)).
Proof. unfold data_line. rewrite map_map. reflexivity. Qed.

Lemma header_line_fields cols :
  Forall (fun h => has_char DQUOTE h = false) cols ->
  join "," (map quoted cols) = join "," (map (fun f => quoted (double_quotes f)) cols).
Proof.
  intros H. f_equal. apply map_ext_in. intros h Hh.
  rewrite Forall_forall in H. rewrite double_quotes_none by (apply H; assumption).
  reflexivity.
Qed.

Lemma map_trim_fields fs : Forall field_ok fs -> map trim fs = fs.
Proof.
  intros H. rewrite <- (map_id fs) at 2. apply map_ext_in.
  intros f Hf. rewrite Forall_forall in H. apply H. assumption.
Qed.

(** What [generateCSVContent] writes for rows of the parser, under their
    headers, splits back into its lines, none of them blank. *)
Section WrittenText.
Variables (hs others : list string).
Hypothesis Hhs : Forall field_ok hs.
Hypothesis Hne : hs <> [].
Hypothesis Hquote : Forall (fun h => has_char DQUOTE h = false) hs.
Hypothesis Hproto : ~ In "__proto__" hs.
Hypothesis Hothers : forall l, In l others -> has_char LF l = false.

Let rows := map (fun l => make_row hs (parseLine l)) others.

Lemma row_cells_ok row : In row rows -> Forall field_ok (map (cell row) hs).
Proof.
  intros Hr. subst rows. apply in_map_iff in Hr. destruct Hr as (l & <- & Hl).
  apply Forall_forall. intros f Hf. apply in_map_iff in Hf. destruct Hf as (h & <- & Hh).
  apply (make_row_get hs (parseLine l) (parseLine_fields l (Hothers l Hl)) h Hh).
  intros ->. contradiction.
Qed.

Lemma written_lines :
  filter nonblank
    (split_lines (join (String LF "") (join "," (map quoted hs) :: map (data_line hs) rows)))
  = join "," (map quoted hs) :: map (data_line hs) rows.
Proof.
  rewrite split_lines_join.
  - apply filter_all. intros l [<-|Hl].
    + rewrite header_line_fields by assumption. apply join_quoted_nonblank. assumption.
    + apply in_map_iff in Hl. destruct Hl as (row & <- & _).
      rewrite data_line_fields. apply join_quoted_nonblank.
      destruct hs; [congruence | discriminate].
  - discriminate.
  - intros l [<-|Hl].
    + rewrite header_line_fields by assumption. split.
      * apply join_quoted_no_lf. intros f Hf.
        rewrite Forall_forall in Hhs. apply (Hhs f Hf).
      * apply join_quoted_ends. assumption.
    + apply in_map_iff in Hl. destruct Hl as (row & <- & Hrow).
      rewrite data_line_fields. split.
      * apply join_quoted_no_lf. intros f Hf.
        pose proof (row_cells_ok row Hrow) as Hc.
        rewrite Forall_forall in Hc. apply (Hc f Hf).
      * apply join_quoted_ends. destruct hs; [congruence | discriminate].
Qed.

Lemma read_header : parseLine (join "," (map quoted hs)) = hs.
Proof.
  rewrite header_line_fields by assumption. unfold parseLine.
  rewrite parseLine_join_quoted by assumption. simpl. apply map_trim_fields. assumption.
Qed.

Lemma read_rows :
  map (fun l => make_row hs (parseLine l)) (map (data_line hs) rows) = rows.
Proof.
  rewrite map_map. rewrite <- (map_id rows) at 2. apply map_ext_in.
  intros row Hrow. rewrite data_line_fields. unfold parseLine.
  rewrite parseLine_join_quoted by (destruct hs; [congruence | discriminate]).
  simpl. rewrite map_trim_fields by (apply row_cells_ok; assumption).
  subst rows. apply in_map_iff in Hrow. destruct Hrow as (l & <- & Hl).
  apply make_row_again; [|assumption].
  apply parseLine_fields, Hothers, Hl.
Qed.

End WrittenText.

(** *** The outcomes of [parseCSVContent] *)

(** The parser throws in three cases and returns otherwise: no line is
    left, every header is empty, or a header is [__proto__] and there is a
    data line. *)
Lemma parseCSVContent_outcomes content :
  match filter nonblank (split_lines content) with
  | [] => parseCSVContent content = Err (Error "CSV file is empty")
  | first :: others =>
      if forallb (fun h => (h =? "")%string) (parseLine first)
      then parseCSVContent content = Err (Error "CSV must have headers")
      else if existsb (String.eqb "__proto__") (parseLine first)
              && negb (Nat.eqb (List.length others) 0)
      then parseCSVContent content = Err (TypeError "v.trim is not a function")
      else exists p, parseCSVContent content = Ok p
  end.
Proof.
  destruct (filter nonblank (split_lines content)) as [|first others] eqn:E.
  - unfold parseCSVContent. rewrite E. reflexivity.
  - rewrite (parse_from_lines _ _ _ E).
    assert (Hlf : forall l, In l others -> has_char LF l = false).
    { intros l Hl. apply (filter_lines_no_lf content). rewrite E. right. assumption. }
    pose proof (parseLine_nonempty first) as Hne.
    destruct (parseLine first) as [|h hs] eqn:Ehs; [congruence|]. clear Hne.
    cbn [List.length Nat.eqb orb].
    destruct (forallb (fun h => (h =? "")%string) (h :: hs)); [reflexivity|].
    cbv zeta.
    destruct (existsb (String.eqb "__proto__") (h :: hs)
              && negb (Nat.eqb (List.length others) 0)) eqn:X.
    + apply andb_true_iff in X. destruct X as [Xp Xo].
      apply existsb_eqb_In in Xp.
      assert (Ho : others <> []).
      { intros ->. discriminate Xo. }
      rewrite (mapM_Err _ _ (TypeError "v.trim is not a function")); [reflexivity | |].
      * exists "__proto__". split; [assumption|]. apply column_info_proto.
        -- rewrite length_map. destruct others; [congruence | simpl; lia].
        -- destruct others; [congruence | discriminate].
      * intros a e _ Ha. apply column_info_error in Ha. assumption.
    + destruct (mapM_all_Ok
                  (column_info (map (fun l => make_row (h :: hs) (parseLine l)) others)
                     (Nat.min (List.length
                        (map (fun l => make_row (h :: hs) (parseLine l)) others)) 100))
                  (h :: hs)) as [cols Hcols].
      * intros a Ha. apply andb_false_iff in X. destruct X as [Xp|Xo].
        -- apply column_info_other; [assumption | | assumption].
           intros ->. apply existsb_eqb_In in Ha. congruence.
        -- destruct others; [|discriminate Xo]. eexists. reflexivity.
      * rewrite Hcols. eexists. reflexivity.
Qed.

(** A header name with a double quote is written without escaping it, and
    reads back as another name. *)
Lemma quoted_header_is_not_escaped :
  let content :=
    String DQUOTE ("a" ++ String DQUOTE (String DQUOTE ("b" ++ String DQUOTE (String LF "1"))))
  in
  match parseCSVContent content with
  | Ok p =>
      headers p = ["a" ++ String DQUOTE "b"]
      /\ match parseCSVContent (generateCSVContent (rows p) (Some (headers p))) with
         | Ok p' => headers p' = ["ab"]
         | Err _ => False
         end
  | Err _ => False
  end.
Proof. vm_compute. split; reflexivity. Qed.

(** *** The claims on type detection *)

(** C2, as stated, fails: for these three values [detectType] does not
    answer date. *)
Lemma two_dates_of_three_not_date :
  detectType ["2024-01-01"; "2024-02-02"; "x"] <> TDate.
Proof. vm_compute. discriminate. Qed.

(** C2, amended.  [detectType] applied to these three values answers
    string: two of the three values match a date pattern, and 2 is not
    more than 3 * 0.7. *)
Theorem two_dates_of_three_is_string :
  detectType ["2024-01-01"; "2024-02-02"; "x"] = TString
  /\ filter (fun v => existsb (fun p => p v) datePatterns)
            ["2024-01-01"; "2024-02-02"; "x"] = ["2024-01-01"; "2024-02-02"]
  /\ Num.gt (Num.of_Z 2) (Num.mul (Num.of_Z 3) (Num.of_decimal false 7 (-1))) = false.
Proof. vm_compute. repeat split. Qed.

(** C8, as stated, fails.  The claim: whenever all non-empty members are
    boolean words the answer is boolean.  A sequence without a non-empty
    member satisfies the premise and is answered string. *)
Lemma no_value_is_not_boolean :
  ~ (forall values : list string,
       (forall v, In v values -> nonblank v = true -> In (toLowerCase v) boolValues) ->
       detectType values = TBoolean).
Proof.
  intros H. specialize (H [""; "  "]).
  assert (E : detectType [""; "  "] = TString) by (vm_compute; reflexivity).
  rewrite H in E; [discriminate E|].
  intros v [<-|[<-|[]]]; vm_compute; discriminate.
Qed.

(** C8, amended.  For every value sequence with at least one non-empty
    member, whose non-empty members all are, ignoring case, one of
    true, false, yes, no, 1, 0, [detectType] answers boolean; members that
    also read as numbers do not matter, the boolean check coming first. *)
Theorem boolean_checked_before_number (values : list string) :
  (exists v, In v values /\ nonblank v = true) ->
  (forall v, In v values -> nonblank v = true -> In (toLowerCase v) boolValues) ->
  detectType values = TBoolean.
Proof.
  intros (v0 & Hin0 & Hnb0) Hall. unfold detectType.
  assert (Hne : In v0 (filter nonblank values)) by (apply filter_In; tauto).
  destruct (filter nonblank values) as [|x xs] eqn:E; [destruct Hne|].
  cbn [List.length Nat.eqb].
  assert (Hb : forallb (fun v => existsb (String.eqb (toLowerCase v)) boolValues) (x :: xs)
               = true).
  { apply forallb_forall. intros v Hv. rewrite <- E in Hv.
    apply filter_In in Hv. destruct Hv as [Hv Hnb].
    apply existsb_eqb_In. apply Hall; assumption. }
  rewrite Hb. reflexivity.
Qed.

Lemma boolean_checked_before_number_witness :
  detectType ["true"; "no"; "1"] = TBoolean.
Proof.
  apply boolean_checked_before_number.
  - exists "true". split; [left; reflexivity | reflexivity].
  - intros v [<-|[<-|[<-|[]]]] _; vm_compute; tauto.
Defined.

(** *** The claims on the parser *)

(** C6: the code breaks the claim.  The text made of the header line
    [__proto__] and one data line survives the blank-line filter with two
    lines, and its header is not empty, yet [parseCSVContent] throws: the
    assignment to [row["__proto__"]] creates no property, the column is
    read back as the prototype object, and [detectType] calls [trim] on
    it. *)
Theorem parse_throws_on_proto_header :
  let content := "__proto__" ++ String LF "1" in
  filter nonblank (split_lines content) = ["__proto__"; "1"]
  /\ parseLine "__proto__" = ["__proto__"]
  /\ parseCSVContent content = Err (TypeError "v.trim is not a function").
Proof. vm_compute. repeat split. Qed.

(** C5, as stated, fails.  A text with a header line and no data line
    parses; its rows serialize to the empty text, which does not parse. *)
Lemma header_only_text_does_not_round_trip :
  parseCSVContent "a,b" =
    Ok {| headers := ["a"; "b"]; rows := [];
          columns := [ {| name := "a"; detectedType := TString; sampleValues := [] |};
                       {| name := "b"; detectedType := TString; sampleValues := [] |} ];
          totalRows := 0 |}
  /\ generateCSVContent [] (Some ["a"; "b"]) = ""
  /\ parseCSVContent (generateCSVContent [] (Some ["a"; "b"]))
     = Err (Error "CSV file is empty").
Proof. vm_compute. repeat split. Qed.

(** C5, amended.  For every text that parses with at least one data row
    and whose header names hold no double quote, serializing the parsed
    rows under the parsed headers and parsing the result gives the same
    headers and the same rows (and with them the same columns and row
    count). *)
Theorem parse_serialize_round_trip (content : string) (p : ParsedCSV) :
  parseCSVContent content = Ok p ->
  rows p <> [] ->
  Forall (fun h => has_char DQUOTE h = false) (headers p) ->
  parseCSVContent (generateCSVContent (rows p) (Some (headers p))) = Ok p.
Proof.
  intros Hparse Hrows Hquote.
  destruct (parse_Ok_inv _ _ Hparse)
    as (first & others & Hlines & Hh & Hr & Hnotempty & Hcols & Htot).
  assert (Hlf : forall l, In l (first :: others) -> has_char LF l = false).
  { intros l Hl. apply (filter_lines_no_lf content). rewrite Hlines. assumption. }
  assert (Hhs : Forall field_ok (parseLine first)).
  { apply parseLine_fields, Hlf. left. reflexivity. }
  assert (Hothers : forall l, In l others -> has_char LF l = false).
  { intros l Hl. apply Hlf. right. assumption. }
  assert (Hproto : ~ In "__proto__" (parseLine first)).
  { intros Hin. destruct (mapM_Ok_inv _ _ _ Hcols _ Hin) as [c Hc].
    rewrite Hr in Hc. rewrite column_info_proto in Hc; [discriminate Hc | |].
    - rewrite <- Hr. destruct (rows p); [congruence | simpl; lia].
    - rewrite <- Hr. assumption. }
  rewrite Hh in Hquote |- *.
  rewrite generate_nonempty by assumption.
  rewrite Hr at 1.
  rewrite (parse_from_lines _ _ _
             (written_lines (parseLine first) others Hhs (parseLine_nonempty first)
                Hquote Hproto Hothers)).
  rewrite read_header by (try assumption; apply parseLine_nonempty).
  cbv zeta. rewrite read_rows by (try assumption; apply parseLine_nonempty).
  rewrite Hnotempty, orb_false_r.
  destruct (parseLine first) as [|h hs] eqn:Ehs; [exfalso; revert Ehs; apply parseLine_nonempty|].
  cbn [List.length Nat.eqb]. cbv iota.
  rewrite <- Hr, Hcols. simpl.
  destruct p as [ph pr pc pt]. simpl in *. subst. reflexivity.
Qed.

Lemma parse_serialize_round_trip_witness :
  forallb (fun h => negb (has_char DQUOTE h)) ["name"; "state"] = true
  /\ parseCSVContent
       (generateCSVContent
          [[("name", VStr "Acme, Inc."); ("state", VStr "CO")];
           [("name", VStr "Bolt"); ("state", VStr "")]]
          (Some ["name"; "state"]))
     = Ok {| headers := ["name"; "state"];
             rows := [[("name", VStr "Acme, Inc."); ("state", VStr "CO")];
                      [("name", VStr "Bolt"); ("state", VStr "")]];
             columns := [ {| name := "name"; detectedType := TString;
                             sampleValues := ["Acme, Inc."; "Bolt"] |};
                          {| name := "state"; detectedType := TString;
                             sampleValues := ["CO"; ""] |} ];
             totalRows := 2 |}.
Proof.
  split; [reflexivity|].
  refine (parse_serialize_round_trip
            ("name, state" ++ String LF (String DQUOTE "Acme, Inc." ++ String DQUOTE ",CO")
               ++ String LF "Bolt")
            {| headers := ["name"; "state"];
               rows := [[("name", VStr "Acme, Inc."); ("state", VStr "CO")];
                        [("name", VStr "Bolt"); ("state", VStr "")]];
               columns := [ {| name := "name"; detectedType := TString;
                               sampleValues := ["Acme, Inc."; "Bolt"] |};
                            {| name := "state"; detectedType := TString;
                               sampleValues := ["CO"; ""] |} ];
               totalRows := 2 |} _ _ _).
  - vm_compute. reflexivity.
  - discriminate.
  - repeat constructor.
Defined.

End CsvFacts.

(** ** The documented examples, run on the embedding *)

Module Examples.
Import Str Num Js Csv Query.

Example parseLine_quoted_comma :
  parseLine ("a," ++ String DQUOTE "b,c" ++ String DQUOTE ",d") = ["a"; "b,c"; "d"].
Proof. reflexivity. Qed.

Example parseLine_escaped_quote :
  parseLine ("a," ++ String DQUOTE "b" ++ String DQUOTE (String DQUOTE "c")
             ++ String DQUOTE ",d")
  = ["a"; "b" ++ String DQUOTE "c"; "d"].
Proof. reflexivity. Qed.

Example detectType_number : detectType ["1"; "2"; "3"] = TNumber.
Proof. vm_compute. reflexivity. Qed.

Example detectType_partial_number : detectType ["12abc"] = TString.
Proof. vm_compute. reflexivity. Qed.

Example detectType_string : detectType ["a"; "b"] = TString.
Proof. vm_compute. reflexivity. Qed.

Example detectType_date :
  detectType ["2024-01-01"; "2024-02-02"; "3/4/24"; "x"] = TDate.
Proof. vm_compute. reflexivity. Qed.

Example split_lines_crlf :
  split_lines ("a" ++ String CR (String LF "b") ++ String LF (String CR "c"))
  = ["a"; "b"; String CR "c"].
Proof. reflexivity. Qed.

Example parse_blank_text :
  parseCSVContent ("  " ++ String LF "") = Err (Error "CSV file is empty").
Proof. reflexivity. Qed.

Example parse_empty_headers :
  parseCSVContent ",," = Err (Error "CSV must have headers").
Proof. reflexivity. Qed.

Example parse_short_row :
  match parseCSVContent ("a,b" ++ String LF "1") with
  | Ok p => rows p = [[("a", VStr "1"); ("b", VStr "")]]
  | Err _ => False
  end.
Proof. vm_compute. reflexivity. Qed.

Example equals_ignores_case :
  keep {| column := "state"; operator := "equals"; value := VStr "co" |}
       [("name", VStr "Acme"); ("state", VStr "CO")] = true.
Proof. vm_compute. reflexivity. Qed.

Example relational_on_text :
  keep {| column := "n"; operator := "gt"; value := VStr "9" |} [("n", VStr "10")] = true
  /\ keep {| column := "n"; operator := "gt"; value := VStr "9" |} [("n", VStr "ten")] = false.
Proof. vm_compute. split; reflexivity. Qed.

Example number_conversions :
  map (fun s => NumberToString (StringToNumber s))
      ["0.1"; " 12.50 "; "0x1F"; "1e21"; "1e-7"; "-0"; "12abc"; ""; "123456789012345678901"]
  = ["0.1"; "12.5"; "31"; "1e+21"; "1e-7"; "0"; "NaN"; "0"; "123456789012345680000"].
Proof. vm_compute. reflexivity. Qed.

Example generate_quotes_every_field :
  generateCSVContent [[("a", VStr "x"); ("b", VNum (of_Z 5)); ("c", VNull)]] None
  = String DQUOTE "a" ++ String DQUOTE "," ++ String DQUOTE "b" ++ String DQUOTE ","
    ++ String DQUOTE "c" ++ String DQUOTE (String LF "")
    ++ String DQUOTE "x" ++ String DQUOTE "," ++ String DQUOTE "5" ++ String DQUOTE ","
    ++ String DQUOTE (String DQUOTE "").
Proof. vm_compute. reflexivity. Qed.

End Examples.

(** ** Further properties of the CSV library *)

Module CsvMore.
Import Str Std Js Csv StrFacts SeqFacts CsvFacts.

(** *** Lookup after assignment *)

Lemma own_get_replace_same o k v v0 :
  own_get o k = Some v0 -> own_get (own_replace o k v) k = Some v.
Proof.
  induction o as [|[k' v'] o IH]; simpl; [discriminate|].
  destruct (String.eqb_spec k' k) as [->|N]; simpl.
  - rewrite String.eqb_refl. reflexivity.
  - destruct (String.eqb_spec k' k); [contradiction | exact IH].
Qed.

Lemma own_get_replace_other o k v k' :
  k' <> k -> own_get (own_replace o k v) k' = own_get o k'.
Proof.
  intros N. induction o as [|[a w] o IH]; simpl; [reflexivity|].
  destruct (String.eqb_spec a k) as [->|Na]; simpl.
  - destruct (String.eqb_spec k k'); [congruence | reflexivity].
  - rewrite IH. reflexivity.
Qed.

Lemma own_get_app o o' k :
  own_get (o ++ o')%list k =
  match own_get o k with Some v => Some v | None => own_get o' k end.
Proof.
  induction o as [|[a w] o IH]; simpl; [reflexivity|].
  destruct (a =? k)%string; [reflexivity | exact IH].
Qed.

Lemma own_get_set_same o k v :
  k <> "__proto__" -> own_get (set o k v) k = Some v.
Proof.
  intros N. unfold set. destruct (own_get o k) eqn:E.
  - eapply own_get_replace_same. eassumption.
  - destruct (String.eqb_spec k "__proto__"); [contradiction|].
    rewrite own_get_app, E. simpl. rewrite String.eqb_refl. reflexivity.
Qed.

Lemma own_get_set_other o k v k' :
  k' <> k -> own_get (set o k v) k' = own_get o k'.
Proof.
  intros N. unfold set. destruct (own_get o k) eqn:E.
  - apply own_get_replace_other. assumption.
  - destruct (k =? "__proto__")%string; [reflexivity|].
    rewrite own_get_app. destruct (own_get o k'); [reflexivity|].
    simpl. destruct (String.eqb_spec k k'); [congruence | reflexivity].
Qed.

Lemma fold_add_key_In hs : forall ks x,
  In x (fold_left add_key hs ks) -> In x ks \/ In x hs.
Proof.
  induction hs as [|h hs IH]; intros ks x H; simpl in *; [tauto|].
  destruct (IH _ _ H) as [Hk|Hh]; [|tauto].
  apply add_key_In in Hk. destruct Hk as [Hk|[-> _]]; tauto.
Qed.

(** Distinct headers, none of them [__proto__], are the keys as they
    stand. *)
Lemma fold_add_key_distinct hs : forall ks,
  NoDup (ks ++ hs) -> ~ In "__proto__" hs ->
  fold_left add_key hs ks = (ks ++ hs)%list.
Proof.
  induction hs as [|h hs IH]; intros ks Hnd Hp; simpl.
  - rewrite app_nil_r. reflexivity.
  - assert (Hh : add_key ks h = (ks ++ [h])%list).
    { unfold add_key.
      destruct (existsb (String.eqb h) ks) eqn:X.
      - apply existsb_eqb_In in X. exfalso.
        apply NoDup_remove_2 in Hnd. apply Hnd. apply in_or_app. tauto.
      - destruct (String.eqb_spec h "__proto__") as [->|_]; [|reflexivity].
        exfalso. apply Hp. left. reflexivity. }
    rewrite Hh, IH.
    + rewrite <- app_assoc. reflexivity.
    + rewrite <- app_assoc. exact Hnd.
    + intros H. apply Hp. right. assumption.
Qed.

(** *** [mapM] and the columns *)

Lemma mapM_Forall2 {A B} (f : A -> result B) l : forall bs,
  mapM f l = Ok bs -> Forall2 (fun a b => f a = Ok b) l bs.
Proof.
  induction l as [|x l IH]; intros bs H; simpl in H.
  - injection H as <-. constructor.
  - destruct (f x) as [b|e] eqn:Fx; [|discriminate].
    simpl in H. destruct (mapM f l) as [bs'|e] eqn:M; [|discriminate].
    simpl in H. injection H as <-. constructor; [assumption | apply IH; reflexivity].
Qed.

Lemma strings_of_Some values : forall vs,
  strings_of values = Some vs -> values = map VStr vs.
Proof.
  induction values as [|v values IH]; intros vs H; simpl in H.
  - injection H as <-. reflexivity.
  - destruct v; try discriminate.
    destruct (strings_of values) as [ss|]; [|discriminate].
    injection H as <-. simpl. rewrite (IH ss eq_refl). reflexivity.
Qed.

Lemma column_info_Ok rows n h c :
  column_info rows n h = Ok c ->
  name c = h
  /\ detectedType c = detectType (map (fun r => cell r h) (firstn n rows))
  /\ sampleValues c = firstn 5 (map (fun r => cell r h) (firstn n rows)).
Proof.
  unfold column_info.
  destruct (strings_of _) as [vs|] eqn:E; [|discriminate].
  intros H. injection H as <-. simpl.
  apply strings_of_Some in E.
  assert (Hvs : map (fun r => cell r h) (firstn n rows) = vs).
  { unfold cell.
    rewrite <- (map_map (fun r => nullish_or (get r h) (VStr "")) ToString).
    rewrite E, map_map. simpl. apply map_id. }
  rewrite Hvs. repeat split.
Qed.

Lemma firstn_min {A} (l : list A) n :
  firstn (Nat.min (List.length l) n) l = firstn n l.
Proof.
  destruct (Nat.le_ge_cases (List.length l) n) as [H|H].
  - rewrite Nat.min_l by assumption. rewrite firstn_all, firstn_all2; auto.
  - rewrite Nat.min_r by assumption. reflexivity.
Qed.

Lemma columns_of_headers rows n hs cs :
  mapM (column_info rows n) hs = Ok cs ->
  map name cs = hs
  /\ Forall (fun c =>
               detectedType c = detectType (map (fun r => cell r (name c)) (firstn n rows))
               /\ sampleValues c =
                    firstn 5 (map (fun r => cell r (name c)) (firstn n rows))) cs.
Proof.
  intros H. apply mapM_Forall2 in H.
  induction H as [|h c hs' cs' Hc _ [IHn IHf]]; [split; [reflexivity | constructor]|].
  apply column_info_Ok in Hc. destruct Hc as (Hn & Ht & Hs).
  split.
  - simpl. rewrite Hn, IHn. reflexivity.
  - constructor; [|assumption]. rewrite Hn. split; assumption.
Qed.

(** X1.  The table a successful parse returns: one row per non-blank
    line after the first, [totalRows] their number, one column per header
    under the header's name and in the headers' order, typed from the
    first 100 rows and sampled from their first 5 cells; the headers are
    not all empty. *)
Theorem parsed_table_shape (content : string) (p : ParsedCSV) :
  parseCSVContent content = Ok p ->
  totalRows p = List.length (rows p)
  /\ S (List.length (rows p)) = List.length (filter nonblank (split_lines content))
  /\ map name (columns p) = headers p
  /\ (exists h, In h (headers p) /\ h <> "")
  /\ Forall (fun c =>
               detectedType c =
                 detectType (map (fun r => cell r (name c)) (firstn 100 (rows p)))
               /\ sampleValues c =
                    firstn 5 (map (fun r => cell r (name c)) (rows p))) (columns p).
Proof.
  intros Hparse.
  destruct (parse_Ok_inv _ _ Hparse)
    as (first & others & Hlines & Hh & Hr & Hne & Hcols & Htot).
  split; [assumption|]. split; [|split; [|split]].
  - rewrite Hlines, Hr, length_map. reflexivity.
  - rewrite Hh. apply (columns_of_headers _ _ _ _ Hcols).
  - rewrite Hh. clear -Hne. induction (parseLine first) as [|h hs IH]; [discriminate|].
    simpl in Hne. destruct (String.eqb_spec h "") as [->|N].
    + destruct (IH Hne) as (x & Hx & Nx). exists x. split; [right|]; assumption.
    + exists h. split; [left; reflexivity | assumption].
  - destruct (columns_of_headers _ _ _ _ Hcols) as [_ Hf].
    eapply Forall_impl; [|exact Hf].
    intros c [Ht Hs]. rewrite firstn_min in Ht, Hs. split; [assumption|].
    rewrite Hs, <- firstn_map, firstn_firstn. reflexivity.
Qed.

Lemma parsed_table_shape_witness :
  exists p,
    parseCSVContent ("id,name" ++ String LF "1,Ann" ++ String LF "" ++ String LF "2,Bob")
    = Ok p
    /\ totalRows p = 2%nat /\ map name (columns p) = ["id"; "name"].
Proof.
  destruct (parseCSVContent
              ("id,name" ++ String LF "1,Ann" ++ String LF "" ++ String LF "2,Bob"))
    as [p|e] eqn:E; [|vm_compute in E; discriminate E].
  exists p. split; [reflexivity|].
  destruct (parsed_table_shape _ p E) as (Ht & Hn & Hc & _).
  split.
  - rewrite Ht. apply eq_add_S. rewrite Hn. vm_compute. reflexivity.
  - rewrite Hc. vm_compute in E. injection E as <-. reflexivity.
Defined.

(** *** The rows *)

(** A successful parse with a data row has no [__proto__] header. *)
Lemma parsed_headers_no_proto first others cols :
  others <> [] ->
  mapM (column_info (map (fun l => make_row (parseLine first) (parseLine l)) others)
          (Nat.min (List.length
             (map (fun l => make_row (parseLine first) (parseLine l)) others)) 100))
       (parseLine first) = Ok cols ->
  ~ In "__proto__" (parseLine first).
Proof.
  intros Hne Hcols Hin.
  destruct (mapM_Ok_inv _ _ _ Hcols _ Hin) as [c Hc].
  rewrite column_info_proto in Hc; [discriminate Hc | |].
  - rewrite length_map. destruct others; [congruence | simpl; lia].
  - destruct others; [congruence | discriminate].
Qed.

(** X2.  In the table of a successful parse every row has exactly the
    headers as its keys, each once, and every value is a trimmed string. *)
Theorem parsed_rows_have_the_headers (content : string) (p : ParsedCSV) (row : obj) :
  parseCSVContent content = Ok p ->
  In row (rows p) ->
  NoDup (map fst row)
  /\ (forall h, In h (map fst row) <-> In h (headers p))
  /\ (forall k v, In (k, v) row -> exists s, v = VStr s /\ trim s = s)
  /\ (forall h, In h (headers p) -> exists s, get row h = VStr s /\ trim s = s).
Proof.
  intros Hparse Hrow.
  destruct (parse_Ok_inv _ _ Hparse)
    as (first & others & Hlines & Hh & Hr & Hne & Hcols & Htot).
  rewrite Hr in Hrow, Hcols. rewrite Hh.
  assert (Hproto : ~ In "__proto__" (parseLine first)).
  { apply (parsed_headers_no_proto first others (columns p)); [|assumption].
    intros ->. destruct Hrow. }
  apply in_map_iff in Hrow. destruct Hrow as (l & <- & Hl).
  assert (Hlf : has_char LF l = false).
  { apply (filter_lines_no_lf content). rewrite Hlines. right. assumption. }
  pose proof (parseLine_fields l Hlf) as Hvs.
  split; [apply make_row_NoDup|]. split; [|split].
  - intros h. rewrite make_row_keys. split.
    + intros H. apply fold_add_key_In in H. destruct H as [[]|H]. assumption.
    + intros H. apply fold_add_key_adds; [assumption|]. intros ->. contradiction.
  - intros k v Hkv. pose proof (make_row_ok (parseLine first) _ Hvs) as Hok.
    unfold row_ok in Hok. rewrite Forall_forall in Hok.
    destruct (Hok _ Hkv) as (s & Es & [Ft _]). exists s. split; assumption.
  - intros h Hin.
    destruct (make_row_get _ _ Hvs h Hin) as [E [Ft _]]; [intros ->; contradiction|].
    eexists. split; eassumption.
Qed.

Lemma parsed_rows_have_the_headers_witness :
  exists s, get [("a", VStr "1"); ("b", VStr "")] "b" = VStr s /\ trim s = s.
Proof.
  refine (proj2 (proj2 (proj2 (parsed_rows_have_the_headers
            ("a,b" ++ String LF " 1 ")
            {| headers := ["a"; "b"]; rows := [[("a", VStr "1"); ("b", VStr "")]];
               columns := [ {| name := "a"; detectedType := TBoolean;
                               sampleValues := ["1"] |};
                            {| name := "b"; detectedType := TString;
                               sampleValues := [""] |} ];
               totalRows := 1 |}
            [("a", VStr "1"); ("b", VStr "")] _ _))) "b" _).
  - vm_compute. reflexivity.
  - left. reflexivity.
  - right. left. reflexivity.
Defined.

Lemma fill_row_untouched hs : forall idx vs o h,
  ~ In h hs -> own_get (fill_row hs idx vs o) h = own_get o h.
Proof.
  induction hs as [|a hs IH]; intros idx vs o h Hn; simpl; [reflexivity|].
  rewrite IH by (intros H; apply Hn; right; assumption).
  apply own_get_set_other. intros ->. apply Hn. left. reflexivity.
Qed.

Lemma fill_row_position hs : forall idx vs o i,
  NoDup hs -> ~ In "__proto__" hs -> (i < List.length hs)%nat ->
  own_get (fill_row hs idx vs o) (nth i hs "") = Some (VStr (nth (idx + i) vs "")).
Proof.
  induction hs as [|a hs IH]; intros idx vs o i Hnd Hp Hi; simpl in Hi; [lia|].
  inversion Hnd as [|x l Hna Hnd']; subst.
  destruct i as [|i]; simpl.
  - rewrite fill_row_untouched by assumption.
    rewrite Nat.add_0_r. apply own_get_set_same.
    intros ->. apply Hp. left. reflexivity.
  - rewrite IH; [|assumption | intros H; apply Hp; right; assumption | lia].
    f_equal. f_equal. f_equal. lia.
Qed.

Lemma fill_row_values hs : forall idx vs vs' o,
  (forall i, (i < List.length hs)%nat -> nth (idx + i) vs "" = nth (idx + i) vs' "") ->
  fill_row hs idx vs o = fill_row hs idx vs' o.
Proof.
  induction hs as [|h hs IH]; intros idx vs vs' o H; simpl; [reflexivity|].
  pose proof (H 0%nat (Nat.lt_0_succ _)) as H0. rewrite Nat.add_0_r in H0. rewrite H0.
  apply IH. intros i Hi. specialize (H (S i)). simpl in H.
  replace (S idx + i)%nat with (idx + S i)%nat by lia. apply H. lia.
Qed.

(** X3.  With distinct headers a row pairs the headers with the fields
    of its line by position: its keys are the headers, as many, the cell
    under the i-th header is the i-th field, or the empty string when the
    line has fewer fields, and fields beyond the headers are dropped.
    Nothing is said of the order in which the keys are listed. *)
Theorem row_cells_by_position (hs vs : list string) :
  NoDup hs -> ~ In "__proto__" hs ->
  (forall k, In k (map fst (make_row hs vs)) <-> In k hs)
  /\ List.length (make_row hs vs) = List.length hs
  /\ (forall i, (i < List.length hs)%nat ->
        get (make_row hs vs) (nth i hs "") = VStr (nth i vs ""))
  /\ make_row hs (firstn (List.length hs) vs) = make_row hs vs.
Proof.
  intros Hnd Hp.
  assert (K : map fst (make_row hs vs) = hs).
  { rewrite make_row_keys. apply (fold_add_key_distinct hs []); assumption. }
  split; [|split; [|split]].
  - intros k. rewrite K. reflexivity.
  - rewrite <- (length_map fst), K. reflexivity.
  - intros i Hi. unfold get, make_row.
    rewrite fill_row_position by assumption. reflexivity.
  - unfold make_row. apply fill_row_values. intros i Hi. simpl.
    rewrite nth_firstn. apply Nat.ltb_lt in Hi. rewrite Hi. reflexivity.
Qed.

Lemma row_cells_by_position_witness :
  get (make_row ["2"; "b"; "1"] ["x"; "y"]) "b" = VStr "y"
  /\ get (make_row ["2"; "b"; "1"] ["x"; "y"]) "1" = VStr ""
  /\ make_row ["2"; "b"; "1"] (firstn 3 ["x"; "y"; "z"; "w"])
     = make_row ["2"; "b"; "1"] ["x"; "y"; "z"; "w"].
Proof.
  destruct (row_cells_by_position ["2"; "b"; "1"] ["x"; "y"]) as (_ & _ & Hg & _).
  - repeat constructor; simpl; intuition discriminate.
  - simpl. intuition discriminate.
  - destruct (row_cells_by_position ["2"; "b"; "1"] ["x"; "y"; "z"; "w"]) as (_ & _ & _ & Hd).
    + repeat constructor; simpl; intuition discriminate.
    + simpl. intuition discriminate.
    + split; [exact (Hg 1%nat (le_S _ _ (le_n 2))) |].
      split; [exact (Hg 2%nat (le_n 3)) | exact Hd].
Defined.

(** *** [parseLine] *)

Lemma parseLine_from_trimmed n : forall line res cur q,
  (String.length line <= n)%nat ->
  Forall (fun f => trim f = f) res ->
  Forall (fun f => trim f = f) (parseLine_from line res cur q).
Proof.
  induction n as [|n IH]; intros line res cur q Hlen Hres.
  - destruct line; [|simpl in Hlen; lia].
    rewrite parseLine_from_nil. apply Forall_app. split; [assumption|].
    constructor; [apply trim_idem | constructor].
  - destruct line as [|c rest].
    + rewrite parseLine_from_nil. apply Forall_app. split; [assumption|].
      constructor; [apply trim_idem | constructor].
    + rewrite parseLine_from_cons. simpl in Hlen.
      destruct (Ascii.eqb c DQUOTE).
      * destruct rest as [|next rest']; [apply IH; [simpl; lia | assumption]|].
        destruct (q && Ascii.eqb next DQUOTE); apply IH; simpl in *; try lia; assumption.
      * destruct (Ascii.eqb c COMMA && negb q).
        -- apply IH; [lia|]. apply Forall_app. split; [assumption|].
           constructor; [apply trim_idem | constructor].
        -- apply IH; [lia | assumption].
Qed.

Lemma parseLine_from_count line : forall res cur,
  has_char DQUOTE line = false ->
  List.length (parseLine_from line res cur false)
  = (List.length res + count_char COMMA line + 1)%nat.
Proof.
  induction line as [|c rest IH]; intros res cur H.
  - rewrite parseLine_from_nil, length_app. simpl. lia.
  - cbn [has_char] in H. apply orb_false_iff in H. destruct H as [Hc Hrest].
    rewrite parseLine_from_cons, Hc. cbn [count_char negb]. rewrite andb_true_r.
    destruct (Ascii.eqb c COMMA).
    + rewrite IH by assumption. rewrite length_app. simpl. lia.
    + rewrite IH by assumption. reflexivity.
Qed.

(** X4.  [parseLine] always gives at least one field, every field is
    trimmed, and a line without double quotes gives one field more than
    it has commas. *)
Theorem parseLine_fields_trimmed_and_counted (line : string) :
  parseLine line <> []
  /\ Forall (fun f => trim f = f) (parseLine line)
  /\ (has_char DQUOTE line = false ->
      List.length (parseLine line) = S (count_char COMMA line)).
Proof.
  split; [apply parseLine_nonempty|]. split.
  - unfold parseLine. apply (parseLine_from_trimmed (String.length line)); auto.
  - intros H. unfold parseLine. rewrite parseLine_from_count by assumption.
    simpl. lia.
Qed.

Lemma parseLine_fields_trimmed_and_counted_witness :
  List.length (parseLine " a ,, b c ,") = 4%nat.
Proof.
  exact (proj2 (proj2 (parseLine_fields_trimmed_and_counted " a ,, b c ,")) eq_refl).
Defined.

(** *** What [generateCSVContent] writes, read again *)

Lemma data_line_parse cols row :
  cols <> [] -> parseLine (data_line cols row) = map (fun c => trim (cell row c)) cols.
Proof.
  intros Hne. rewrite data_line_fields. unfold parseLine.
  rewrite parseLine_join_quoted by (destruct cols; [congruence | discriminate]).
  simpl. apply map_map.
Qed.

(** X5.  For rows and columns that are not empty, the text of
    [generateCSVContent] is a header line and one line per row, joined by
    LF, and each of these lines reads back with [parseLine] as the cells
    of its row under the columns, trimmed: commas and double quotes in a
    cell survive, and a missing or null value is the empty cell. *)
Theorem data_lines_read_back (rows : list obj) (cols : list string) :
  rows <> [] -> cols <> [] ->
  exists header lines,
    generateCSVContent rows (Some cols) = join (String LF "") (header :: lines)
    /\ map parseLine lines =
       map (fun row =>
              map (fun c => trim (ToString (nullish_or (get row c) (VStr "")))) cols)
           rows.
Proof.
  intros Hrows Hcols.
  exists (join "," (map quoted cols)), (map (data_line cols) rows).
  split; [apply generate_nonempty; assumption|].
  rewrite map_map. apply map_ext. intros row. apply data_line_parse. assumption.
Qed.

Lemma data_lines_read_back_witness :
  exists header lines,
    generateCSVContent
      [[("name", VStr ("Acme, " ++ String DQUOTE "Inc" ++ String DQUOTE ""));
        ("n", VNum (Num.of_Z 12))];
       [("name", VNull)]]
      (Some ["name"; "n"]) = join (String LF "") (header :: lines)
    /\ map parseLine lines =
       [["Acme, " ++ String DQUOTE "Inc" ++ String DQUOTE ""; "12"]; [""; ""]].
Proof.
  exact (data_lines_read_back
           [[("name", VStr ("Acme, " ++ String DQUOTE "Inc" ++ String DQUOTE ""));
             ("n", VNum (Num.of_Z 12))];
            [("name", VNull)]]
           ["name"; "n"]
           (fun H => @nil_cons _ _ _ (eq_sym H)) (fun H => @nil_cons _ _ _ (eq_sym H))).
Defined.

(** *** Export, then import *)

Lemma join_plain_quoted_no_lf (xs : list string) :
  (forall x, In x xs -> has_char LF x = false) ->
  has_char LF (join "," (map quoted xs)) = false.
Proof.
  induction xs as [|x xs IH]; intros H; [reflexivity|].
  assert (Hq : has_char LF (quoted x) = false).
  { unfold quoted. cbn [has_char]. rewrite has_char_app.
    rewrite (H x (or_introl eq_refl)). reflexivity. }
  destruct xs as [|x' xs']; [exact Hq|].
  change (join "," (map quoted (x :: x' :: xs'))) with
    (quoted x ++ String COMMA (join "," (map quoted (x' :: xs')))).
  rewrite has_char_app, Hq. cbn [has_char orb].
  rewrite IH; [reflexivity|]. intros y Hy. apply H. right. assumption.
Qed.

Section ExportedText.
Variables (rows : list obj) (cols : list string).
Hypothesis Hrows : rows <> [].
Hypothesis Hcols : cols <> [].
Hypothesis Hfields : Forall field_ok cols.
Hypothesis Hquote : Forall (fun h => has_char DQUOTE h = false) cols.
Hypothesis Hcells :
  forall row c, In row rows -> In c cols -> has_char LF (cell row c) = false.

Lemma export_lines :
  filter nonblank
    (split_lines (join (String LF "")
                    (join "," (map quoted cols) :: map (data_line cols) rows)))
  = join "," (map quoted cols) :: map (data_line cols) rows.
Proof.
  assert (Hdata : forall row, In row rows ->
            has_char LF (data_line cols row) = false
            /\ ends_cr (data_line cols row) = false
            /\ nonblank (data_line cols row) = true).
  { intros row Hrow. rewrite data_line_fields.
    assert (Hm : map (cell row) cols <> []) by (destruct cols; [congruence | discriminate]).
    split; [|split].
    - apply join_quoted_no_lf. intros f Hf. apply in_map_iff in Hf.
      destruct Hf as (c & <- & Hc). apply Hcells; assumption.
    - apply join_quoted_ends. assumption.
    - apply join_quoted_nonblank. assumption. }
  assert (Hhead : has_char LF (join "," (map quoted cols)) = false
                  /\ ends_cr (join "," (map quoted cols)) = false
                  /\ nonblank (join "," (map quoted cols)) = true).
  { rewrite header_line_fields by assumption. split; [|split].
    - apply join_quoted_no_lf. intros f Hf. rewrite Forall_forall in Hfields.
      apply (Hfields f Hf).
    - apply join_quoted_ends. assumption.
    - apply join_quoted_nonblank. assumption. }
  rewrite split_lines_join.
  - apply filter_all. intros l [<-|Hl]; [apply Hhead|].
    apply in_map_iff in Hl. destruct Hl as (row & <- & Hrow). apply Hdata. assumption.
  - discriminate.
  - intros l [<-|Hl]; [split; apply Hhead|].
    apply in_map_iff in Hl. destruct Hl as (row & <- & Hrow).
    split; apply Hdata; assumption.
Qed.

End ExportedText.

(** X6.  Export, then import.  Take any records and columns, none of them
    empty, the column names being trimmed, free of LF and of double
    quotes, not all empty and none [__proto__], and the cells free of LF.
    Then the text [generateCSVContent] writes parses: the headers are the
    columns, and each row holds under each column the trimmed text of the
    exported value. *)
Theorem export_then_import (records : list obj) (cols : list string) :
  records <> [] -> cols <> [] ->
  Forall field_ok cols ->
  Forall (fun h => has_char DQUOTE h = false) cols ->
  forallb (fun h => (h =? "")%string) cols = false ->
  ~ In "__proto__" cols ->
  (forall row c, In row records -> In c cols ->
     has_char LF (ToString (nullish_or (get row c) (VStr ""))) = false) ->
  exists p,
    parseCSVContent (generateCSVContent records (Some cols)) = Ok p
    /\ headers p = cols
    /\ rows p =
       map (fun row =>
              make_row cols
                (map (fun c => trim (ToString (nullish_or (get row c) (VStr "")))) cols))
           records.
Proof.
  intros Hrows Hcols Hfields Hquote Hempty Hproto Hcells.
  rewrite generate_nonempty by assumption.
  rewrite (parse_from_lines _ _ _ (export_lines records cols Hcols Hfields Hquote Hcells)).
  rewrite read_header by assumption.
  rewrite Hempty, orb_false_r.
  destruct cols as [|c0 cs] eqn:Ec; [congruence|]. rewrite <- Ec in *.
  replace (Nat.eqb (List.length cols) 0) with false by (rewrite Ec; reflexivity).
  cbv zeta.
  destruct (mapM_all_Ok
              (column_info
                 (map (fun l => make_row cols (parseLine l)) (map (data_line cols) records))
                 (Nat.min (List.length
                    (map (fun l => make_row cols (parseLine l))
                       (map (data_line cols) records))) 100))
              cols) as [cs' Hcs].
  - intros h Hh. apply column_info_other; [assumption | intros ->; contradiction|].
    intros l Hl. apply in_map_iff in Hl. destruct Hl as (row & <- & Hrow).
    rewrite data_line_fields. apply join_quoted_no_lf.
    intros f Hf. apply in_map_iff in Hf. destruct Hf as (c & <- & Hc).
    apply Hcells; assumption.
  - rewrite Hcs. eexists. split; [reflexivity|]. simpl. split; [reflexivity|].
    rewrite map_map. apply map_ext. intros row.
    rewrite data_line_parse by assumption. reflexivity.
Qed.

Lemma export_then_import_witness :
  exists p,
    parseCSVContent
      (generateCSVContent
         [[("city", VStr "Oslo"); ("pop", VNum (Num.of_Z 700000))];
          [("city", VStr " Rome ")]]
         (Some ["city"; "pop"])) = Ok p
    /\ headers p = ["city"; "pop"]
    /\ rows p = [[("city", VStr "Oslo"); ("pop", VStr "700000")];
                 [("city", VStr "Rome"); ("pop", VStr "")]].
Proof.
  refine (export_then_import
            [[("city", VStr "Oslo"); ("pop", VNum (Num.of_Z 700000))];
             [("city", VStr " Rome ")]]
            ["city"; "pop"] _ _ _ _ _ _ _).
  - discriminate.
  - discriminate.
  - repeat constructor.
  - repeat constructor.
  - reflexivity.
  - simpl. intuition discriminate.
  - intros row c [<-|[<-|[]]] [<-|[<-|[]]]; vm_compute; reflexivity.
Defined.

(** *** The columns when none are given *)






(** *** [detectType] *)

Lemma filter_perm {A} (f : A -> bool) l l' :
  Permutation l l' -> Permutation (filter f l) (filter f l').
Proof.
  induction 1 as [|x l l' _ IH|x y l|l l' l'' _ IH1 _ IH2]; simpl.
  - constructor.
  - destruct (f x); [apply perm_skip|]; assumption.
  - destruct (f x), (f y); try apply Permutation_refl. apply perm_swap.
  - eapply Permutation_trans; eassumption.
Qed.

Lemma forallb_perm {A} (f : A -> bool) l l' :
  Permutation l l' -> forallb f l = forallb f l'.
Proof.
  induction 1 as [|x l l' _ IH|x y l|l l' l'' _ IH1 _ IH2]; simpl.
  - reflexivity.
  - rewrite IH. reflexivity.
  - destruct (f x), (f y); reflexivity.
  - congruence.
Qed.

Lemma filter_twice {A} (f : A -> bool) l : filter f (filter f l) = filter f l.
Proof.
  induction l as [|x l IH]; simpl; [reflexivity|].
  destruct (f x) eqn:E; simpl; [rewrite E, IH; reflexivity | exact IH].
Qed.

(** The answer of [detectType] is a function of the non-blank values. *)
Lemma detectType_perm_nonEmpty values values' :
  Permutation (filter nonblank values) (filter nonblank values') ->
  detectType values = detectType values'.
Proof.
  intros H. unfold detectType.
  rewrite (Permutation_length H).
  rewrite (forallb_perm _ _ _ H).
  rewrite (forallb_perm (fun v => negb (Num.isNaN (Num.StringToNumber v)) && nonblank v)
             _ _ H).
  rewrite (Permutation_length (filter_perm _ _ _ H)).
  reflexivity.
Qed.

(** X8.  [detectType] does not depend on the order of the values nor on
    the blank ones: values that are a rearrangement of others get the same
    type, and so do the values with the blank ones taken out. *)
Theorem detectType_ignores_order_and_blanks (values values' : list string) :
  (Permutation values values' -> detectType values = detectType values')
  /\ detectType (filter nonblank values) = detectType values
  /\ (forall blanks, Forall (fun v => nonblank v = false) blanks ->
      detectType (values ++ blanks) = detectType values).
Proof.
  split; [|split].
  - intros H. apply detectType_perm_nonEmpty, filter_perm, H.
  - apply detectType_perm_nonEmpty. rewrite filter_twice. apply Permutation_refl.
  - intros blanks Hb. apply detectType_perm_nonEmpty.
    rewrite filter_app.
    replace (filter nonblank blanks) with (@nil string).
    + rewrite app_nil_r. apply Permutation_refl.
    + symmetry. induction Hb as [|b bs Hb _ IH]; [reflexivity|].
      simpl. rewrite Hb. exact IH.
Qed.

Lemma detectType_ignores_order_and_blanks_witness :
  detectType ["x"; "2024-01-01"; "3/4/24"; "2024-02-02"]
  = detectType ["2024-01-01"; "x"; "3/4/24"; "2024-02-02"].
Proof.
  exact (proj1 (detectType_ignores_order_and_blanks _ _)
           (perm_swap "2024-01-01" "x" ["3/4/24"; "2024-02-02"])).
Defined.

(** X9.  What a type says about the values: under boolean every
    non-blank value is one of the six boolean words, there being at least
    one; under number every non-blank value converts to a number, and one
    of them is not a boolean word; and values that are all blank are
    string. *)
Theorem detectType_sound (values : list string) :
  (detectType values = TBoolean ->
     (exists v, In v values /\ nonblank v = true)
     /\ forall v, In v values -> nonblank v = true -> In (toLowerCase v) boolValues)
  /\ (detectType values = TNumber ->
       (forall v, In v values -> nonblank v = true ->
          Num.isNaN (Num.StringToNumber v) = false)
       /\ exists v, In v values /\ nonblank v = true /\ ~ In (toLowerCase v) boolValues)
  /\ ((forall v, In v values -> nonblank v = false) -> detectType values = TString).
Proof.
  unfold detectType.
  destruct (filter nonblank values) as [|x xs] eqn:E.
  - cbn [List.length Nat.eqb]. split; [discriminate|]. split; [discriminate|]. reflexivity.
  - cbn [List.length Nat.eqb].
    assert (Hx : In x values /\ nonblank x = true).
    { apply filter_In. rewrite E. left. reflexivity. }
    destruct (forallb (fun v => existsb (String.eqb (toLowerCase v)) boolValues) (x :: xs))
      eqn:B.
    + split; [|split; [discriminate|]].
      * intros _. split; [exists x; exact Hx|].
        intros v Hv Hnb. rewrite forallb_forall in B.
        apply existsb_eqb_In, B. rewrite <- E. apply filter_In. tauto.
      * intros H. destruct Hx as [Hin Hnb]. rewrite (H x Hin) in Hnb. discriminate.
    + destruct (forallb
                  (fun v => negb (Num.isNaN (Num.StringToNumber v)) && nonblank v) (x :: xs))
        eqn:N.
      * split; [discriminate|]. split.
        -- intros _. split.
           ++ intros v Hv Hnb. rewrite forallb_forall in N.
              assert (Hn : In v (x :: xs)) by (rewrite <- E; apply filter_In; tauto).
              apply N in Hn. apply andb_true_iff in Hn. destruct Hn as [Hn _].
              apply negb_true_iff in Hn. exact Hn.
           ++ assert (Hex : exists v, In v (x :: xs)
                       /\ existsb (String.eqb (toLowerCase v)) boolValues = false).
              { clear -B. induction (x :: xs) as [|a l IH]; [discriminate|].
                simpl in B. apply andb_false_iff in B. destruct B as [B|B].
                - exists a. split; [left; reflexivity | assumption].
                - destruct (IH B) as (v & Hv & Hb). exists v. split; [right|]; assumption. }
              destruct Hex as (v & Hv & Hb). rewrite <- E in Hv.
              apply filter_In in Hv. exists v. split; [tauto|]. split; [tauto|].
              intros Hin. apply existsb_eqb_In in Hin. congruence.
        -- intros H. destruct Hx as [Hin Hnb]. rewrite (H x Hin) in Hnb. discriminate.
      * split; [|split].
        -- destruct (Num.gt _ _); discriminate.
        -- destruct (Num.gt _ _); discriminate.
        -- intros H. destruct Hx as [Hin Hnb]. rewrite (H x Hin) in Hnb. discriminate.
Qed.

Lemma detectType_sound_witness :
  detectType ["10"; " "; "2.5"; "1e3"] = TNumber
  /\ Num.isNaN (Num.StringToNumber "1e3") = false.
Proof.
  assert (T : detectType ["10"; " "; "2.5"; "1e3"] = TNumber) by (vm_compute; reflexivity).
  split; [exact T|].
  refine (proj1 (proj1 (proj2 (detectType_sound ["10"; " "; "2.5"; "1e3"])) T) "1e3" _ _).
  - simpl. tauto.
  - vm_compute. reflexivity.
Defined.

End CsvMore.

(** ** Further properties of the filter engine and the executor *)

Module QueryMore.
Import Str Js Csv Query StrFacts SeqFacts CsvFacts QueryFacts.

(** *** The string operators *)

Lemma prefix_refl s : String.prefix s s = true.
Proof.
  induction s as [|c s IH]; [reflexivity|].
  simpl. destruct (ascii_dec c c); [exact IH | congruence].
Qed.

Lemma includes_prefix s t : String.prefix t s = true -> includes s t = true.
Proof. intros H. destruct s; cbn [includes]; rewrite H; reflexivity. Qed.

(** X10.  The three string operators are ordered: on the same column and
    value, a row that [equals] keeps is kept by [starts_with], and a row
    that [starts_with] keeps is kept by [contains]. *)
Theorem string_operators_chain (col : string) (v : jsval) (row : obj) :
  let f op := {| column := col; operator := op; value := v |} in
  (keep (f "equals") row = true -> keep (f "starts_with") row = true)
  /\ (keep (f "starts_with") row = true -> keep (f "contains") row = true).
Proof.
  intros f. unfold keep, f, startsWith. cbn [column operator value].
  change ("equals" =? "equals")%string with true.
  change ("starts_with" =? "equals")%string with false.
  change ("starts_with" =? "contains")%string with false.
  change ("starts_with" =? "starts_with")%string with true.
  change ("contains" =? "equals")%string with false.
  change ("contains" =? "contains")%string with true.
  cbv iota. split.
  - intros H. apply String.eqb_eq in H. rewrite H. apply prefix_refl.
  - apply includes_prefix.
Qed.

Lemma string_operators_chain_witness :
  keep {| column := "city"; operator := "contains"; value := VStr "new" |}
       [("city", VStr "New York")] = true.
Proof.
  refine (proj2 (string_operators_chain "city" (VStr "new") [("city", VStr "New York")]) _).
  vm_compute. reflexivity.
Defined.

Lemma lower_char_idem c : lower_char (lower_char c) = lower_char c.
Proof. destruct c as [[] [] [] [] [] [] [] []]; reflexivity. Qed.

Lemma toLowerCase_idem s : toLowerCase (toLowerCase s) = toLowerCase s.
Proof.
  induction s as [|c s IH]; simpl; [reflexivity|].
  rewrite lower_char_idem, IH. reflexivity.
Qed.

(** X11.  The string operators ignore case on both sides: lower-casing
    the text of the filter value, or the text the row holds at the column,
    does not change whether the row is kept. *)
Theorem string_operators_ignore_case (col op s : string) :
  In op ["equals"; "contains"; "starts_with"] ->
  (forall row,
     keep {| column := col; operator := op; value := VStr (toLowerCase s) |} row
     = keep {| column := col; operator := op; value := VStr s |} row)
  /\ (forall v row row',
        get row col = VStr s -> get row' col = VStr (toLowerCase s) ->
        keep {| column := col; operator := op; value := v |} row'
        = keep {| column := col; operator := op; value := v |} row).
Proof.
  intros Hop. split.
  - intros row. unfold keep. cbn [column operator value ToString].
    rewrite toLowerCase_idem.
    destruct Hop as [<-|[<-|[<-|[]]]]; reflexivity.
  - intros v row row' Hr Hr'. unfold keep. cbn [column operator value].
    rewrite Hr, Hr'. cbn [nullish_or ToString]. rewrite toLowerCase_idem.
    destruct Hop as [<-|[<-|[<-|[]]]]; reflexivity.
Qed.

Lemma string_operators_ignore_case_witness :
  keep {| column := "state"; operator := "equals"; value := VStr "co" |}
       [("state", VStr "CO")]
  = keep {| column := "state"; operator := "equals"; value := VStr "Co" |}
         [("state", VStr "CO")].
Proof.
  exact (proj1 (string_operators_ignore_case "state" "equals" "Co"
                  (or_introl eq_refl)) [("state", VStr "CO")]).
Defined.

(** *** The filter list *)

(** X12.  The filter list is a conjunction: the rows left are the rows
    that every filter keeps, in their order, so that listing the filters
    in another order gives the same rows. *)
Theorem filters_are_a_conjunction (rows : list obj) (fs : list QueryFilter) :
  applyFilters rows fs = filter (fun r => forallb (fun f => keep f r) fs) rows
  /\ (forall r, In r (applyFilters rows fs) <->
                In r rows /\ forall f, In f fs -> keep f r = true)
  /\ (forall fs', Permutation fs fs' -> applyFilters rows fs' = applyFilters rows fs).
Proof.
  split; [apply applyFilters_forallb|]. split.
  - intros r. rewrite applyFilters_forallb, filter_In, forallb_forall. reflexivity.
  - intros fs' H. rewrite !applyFilters_forallb. apply filter_ext.
    intros r. symmetry. apply CsvMore.forallb_perm. assumption.
Qed.

Lemma filters_are_a_conjunction_witness :
  applyFilters [[("n", VStr "3")]; [("n", VStr "30")]; [("n", VStr "300")]]
    [ {| column := "n"; operator := "lt"; value := VStr "100" |};
      {| column := "n"; operator := "gt"; value := VStr "5" |} ]
  = applyFilters [[("n", VStr "3")]; [("n", VStr "30")]; [("n", VStr "300")]]
      [ {| column := "n"; operator := "gt"; value := VStr "5" |};
        {| column := "n"; operator := "lt"; value := VStr "100" |} ].
Proof.
  exact (proj2 (proj2 (filters_are_a_conjunction _ _)) _
           (perm_swap {| column := "n"; operator := "lt"; value := VStr "100" |}
                      {| column := "n"; operator := "gt"; value := VStr "5" |} [])).
Defined.

(** *** Projection *)











(** *** The executor *)

Lemma run_plan_ids fetch ids0 ids0' fs cols lim ids : forall acc,
  run fetch {| dataset_ids := ids0; filters := fs; columns := cols; limit := lim |} ids acc
  = run fetch {| dataset_ids := ids0'; filters := fs; columns := cols; limit := lim |} ids acc.
Proof.
  induction ids as [|id ids IH]; intros acc; simpl; [reflexivity|].
  unfold fetch_limit, dataset_rows. cbn [limit filters columns].
  destruct (error _); [reflexivity | apply IH].
Qed.

Lemma run_acc fetch plan ids : forall acc,
  run fetch plan ids acc
  = match run fetch plan ids [] with
    | Ok r => Ok (acc ++ r)%list
    | Err e => Err e
    end.
Proof.
  induction ids as [|id ids IH]; intros acc; simpl.
  - rewrite app_nil_r. reflexivity.
  - destruct (error _); [reflexivity|].
    rewrite IH. rewrite (IH (dataset_rows plan _)).
    destruct (run fetch plan ids []); [|reflexivity].
    rewrite app_assoc. reflexivity.
Qed.

Lemma run_app fetch plan ids1 ids2 : forall acc,
  run fetch plan (ids1 ++ ids2) acc
  = match run fetch plan ids1 acc with
    | Ok r => run fetch plan ids2 r
    | Err e => Err e
    end.
Proof.
  induction ids1 as [|id ids1 IH]; intros acc; simpl; [reflexivity|].
  destruct (error _); [reflexivity | apply IH].
Qed.

(** X14.  Querying the datasets of two lists in one plan is querying the
    first list, then the second, and putting the records together; the
    first error met is the error of the whole. *)
Theorem execution_splits (fetch : Fetch) (ids1 ids2 : list string)
    (fs : list QueryFilter) (cols : option (list string)) (lim : option Z) :
  let plan ids := {| dataset_ids := ids; filters := fs; columns := cols; limit := lim |} in
  executeQueryPlan fetch (plan (ids1 ++ ids2)%list)
  = match executeQueryPlan fetch (plan ids1) with
    | Err e => Err e
    | Ok r1 =>
        match executeQueryPlan fetch (plan ids2) with
        | Err e => Err e
        | Ok r2 => Ok (r1 ++ r2)%list
        end
    end.
Proof.
  intros plan. unfold executeQueryPlan, plan. cbn [dataset_ids].
  rewrite run_app.
  rewrite (run_plan_ids fetch (ids1 ++ ids2) ids1 fs cols lim ids1).
  destruct (run fetch _ ids1 []) as [r1|e]; [|reflexivity].
  rewrite run_acc.
  rewrite (run_plan_ids fetch (ids1 ++ ids2) ids2 fs cols lim ids2).
  reflexivity.
Qed.

Lemma length_project cols rows : List.length (project cols rows) = List.length rows.
Proof.
  destruct cols as [[|c cs]|]; simpl; [reflexivity | apply length_map | reflexivity].
Qed.

Lemma length_dataset_rows plan r n :
  (forall d, data r = Some d -> (List.length d <= n)%nat) ->
  (List.length (dataset_rows plan r) <= n)%nat.
Proof.
  intros H. unfold dataset_rows. rewrite length_project.
  eapply Nat.le_trans; [apply subseq_length, applyFilters_subseq|].
  rewrite length_map. destruct (data r) as [d|]; [apply H; reflexivity | simpl; lia].
Qed.

(** X15.  When the store returns at most [n] rows per fetch, a finished
    execution returns at most [n] records per dataset listed. *)
Theorem output_bounded_per_dataset (fetch : Fetch) (plan : QueryPlan) (n : nat)
    (out : list obj) :
  (forall id d, In id (dataset_ids plan) ->
     data (fetch id (match limit plan with Some l => l | None => 200 end)) = Some d ->
     (List.length d <= n)%nat) ->
  executeQueryPlan fetch plan = Ok out ->
  (List.length out <= n * List.length (dataset_ids plan))%nat.
Proof.
  intros Hn H. unfold executeQueryPlan in H.
  pose proof (run_Ok_inv _ _ _ _ _ H) as Hall.
  rewrite run_ok in H by exact Hall. injection H as <-. simpl.
  fold (fetch_limit plan) in Hn.
  induction (dataset_ids plan) as [|id ids IH]; simpl; [lia|].
  rewrite length_app.
  assert (L1 : (List.length (dataset_rows plan (fetch id (fetch_limit plan))) <= n)%nat).
  { apply length_dataset_rows. intros d Hd. apply (Hn id d); [left; reflexivity | assumption]. }
  assert (L2 : (List.length
                  (flat_map (fun id => dataset_rows plan (fetch id (fetch_limit plan))) ids)
                <= n * List.length ids)%nat).
  { apply IH.
    - intros i d Hi. apply Hn. right. assumption.
    - intros i Hi. apply Hall. right. assumption. }
  lia.
Qed.

Lemma output_bounded_per_dataset_witness :
  (List.length [[("k", VStr "a")]; [("k", VStr "b")]; [("k", VStr "a")]; [("k", VStr "b")]]
   <= 2 * 2)%nat.
Proof.
  refine (output_bounded_per_dataset
            (fun _ _ => {| data := Some [ {| row_data := [("k", VStr "a")] |};
                                          {| row_data := [("k", VStr "b")] |} ];
                           error := None |})
            {| dataset_ids := ["A"; "B"]; filters := []; columns := None; limit := Some 2 |}
            2 _ _ _).
  - intros id d _ Hd. injection Hd as <-. simpl. lia.
  - reflexivity.
Defined.

End QueryMore.

(** ** The upload page *)

Module UploadFacts.
Import Str Std Js Csv Upload StrFacts SeqFacts CsvFacts.

(** *** The file name *)

Lemma eqb_length s t : (s =? t)%string = true -> String.length s = String.length t.
Proof. intros H. apply String.eqb_eq in H. rewrite H. reflexivity. Qed.

Lemma endsWith_length s t :
  endsWith s t = true -> (String.length t <= String.length s)%nat.
Proof.
  induction s as [|c s IH]; cbn [endsWith]; intros H.
  - rewrite orb_false_r in H. apply eqb_length in H. lia.
  - apply orb_true_iff in H. destruct H as [H|H].
    + apply eqb_length in H. lia.
    + apply IH in H. simpl. lia.
Qed.

Lemma is_dot_csv_length s : is_dot_csv s = true -> String.length s = 4%nat.
Proof.
  destruct s as [|a [|b [|c [|d [|e s]]]]]; simpl; try discriminate; reflexivity.
Qed.

Lemma strip_csv_suffix name : endsWith name ".csv" = true -> strip_csv name ++ ".csv" = name.
Proof.
  induction name as [|c r IH]; cbn [endsWith]; intros H.
  - rewrite orb_false_r in H. discriminate H.
  - apply orb_true_iff in H. destruct H as [H|H].
    + apply String.eqb_eq in H. rewrite H. reflexivity.
    + cbn [strip_csv]. destruct (is_dot_csv (String c r)) eqn:D.
      * apply is_dot_csv_length in D. apply endsWith_length in H. simpl in *. lia.
      * cbn [append]. rewrite (IH H). reflexivity.
Qed.

(** X16.  [handleFile] takes a file exactly when its name ends with
    [.csv] in lower case.  A file it refuses changes nothing but the error
    text.  For a file it takes, the proposed dataset name is the file name
    without that extension, and the page shows the parsed table, or the
    parser's message when the text does not parse. *)
Theorem handleFile_takes_csv_names (name content : string) (st : State) :
  (endsWith name ".csv" = false ->
     handleFile name content st =
     {| file := file st; parsed := parsed st; datasetName := datasetName st;
        tagInput := tagInput st; tags := tags st; status := status st;
        error := "Only CSV files are supported" |})
  /\ (endsWith name ".csv" = true ->
      file (handleFile name content st) = Some name
      /\ datasetName (handleFile name content st) ++ ".csv" = name
      /\ match parseCSVContent content with
         | Ok p =>
             parsed (handleFile name content st) = Some p
             /\ status (handleFile name content st) = StatusPreviewing
             /\ error (handleFile name content st) = ""
         | Err e =>
             parsed (handleFile name content st) = parsed st
             /\ status (handleFile name content st) = StatusError
             /\ error (handleFile name content st) = message_of e
         end).
Proof.
  unfold handleFile. split; intros H; rewrite H; cbn [negb].
  - reflexivity.
  - destruct (parseCSVContent content); cbn [file datasetName parsed status error];
      (split; [reflexivity|]); (split; [apply strip_csv_suffix; assumption|]);
      repeat split.
Qed.

Lemma handleFile_takes_csv_names_witness :
  datasetName (handleFile "sales.2024.csv" ",," initial) ++ ".csv" = "sales.2024.csv".
Proof.
  exact (proj1 (proj2 (proj2 (handleFile_takes_csv_names "sales.2024.csv" ",," initial)
                         eq_refl))).
Defined.

(** *** The states the page can reach *)

Lemma fold_left_invariant {A B} (f : A -> B -> A) (P : A -> Prop) :
  (forall a b, P a -> P (f a b)) ->
  forall l a, P a -> P (fold_left f l a).
Proof.
  intros Hstep l. induction l as [|b l IH]; intros a Ha; simpl; [assumption|].
  apply IH, Hstep, Ha.
Qed.

Lemma handleImport_keeps store st :
  file (state (handleImport store st)) = file st
  /\ parsed (state (handleImport store st)) = parsed st
  /\ tags (state (handleImport store st)) = tags st
  /\ datasetName (state (handleImport store st)) = datasetName st.
Proof.
  unfold handleImport, import_failed.
  destruct (parsed st) as [p|] eqn:P; [|cbn; rewrite P; repeat split].
  destruct (trim (datasetName st) =? "")%string; [cbn; rewrite P; repeat split|].
  destruct (file st) eqn:F; [|cbn; rewrite ?P, ?F; repeat split].
  destruct (insert_dataset store _); [|cbn; rewrite ?P, ?F; repeat split].
  destruct (insert_batches _ _ _ _ _ _) as [made [e|]]; cbn; rewrite ?P, ?F; repeat split.
Qed.

(** *** The batches *)

Lemma slice_batch {A} (i : nat) (l : list A) :
  slice i (i + batchSize) l = firstn batchSize (skipn i l).
Proof. unfold slice. replace (i + batchSize - i)%nat with batchSize by lia. reflexivity. Qed.

Lemma skipn_none {A} (i : nat) (l : list A) : (List.length l <= i)%nat -> skipn i l = [].
Proof. apply skipn_all2. Qed.

Lemma insert_batches_spec store id rows : forall fuel i made,
  (List.length rows - i <= fuel)%nat ->
  exists batches rest,
    fst (insert_batches store id rows fuel i made) = (made ++ map InsertRecords batches)%list
    /\ Forall batch_ok batches
    /\ (List.concat batches ++ rest)%list = map (fun row => (id, row)) (skipn i rows)
    /\ (snd (insert_batches store id rows fuel i made) = None -> rest = []).
Proof.
  induction fuel as [|fuel IH]; intros i made Hfuel.
  - exists [], []. cbn. rewrite app_nil_r, skipn_none by lia. repeat split. constructor.
  - cbn [insert_batches]. destruct (Nat.ltb_spec i (List.length rows)) as [Hi|Hi].
    + rewrite slice_batch.
      set (batch := map (fun row => (id, row)) (firstn batchSize (skipn i rows))).
      assert (Hb : batch_ok batch).
      { unfold batch_ok, batch. rewrite length_map, length_firstn, length_skipn.
        unfold batchSize. lia. }
      assert (Hsplit : (batch ++ map (fun row => (id, row)) (skipn (i + batchSize) rows))%list
                       = map (fun row => (id, row)) (skipn i rows)).
      { unfold batch. rewrite <- map_app. f_equal.
        rewrite (Nat.add_comm i batchSize), <- skipn_skipn. apply firstn_skipn. }
      destruct (insert_records store i batch) as [e|].
      * exists [batch], (map (fun row => (id, row)) (skipn (i + batchSize) rows)).
        cbn [fst snd map List.concat]. rewrite app_nil_r.
        repeat split; [constructor; [assumption | constructor] | assumption | discriminate].
      * destruct (IH (i + batchSize)%nat (made ++ [InsertRecords batch])%list)
          as (batches & rest & Hf & Hok & Hc & Hn); [unfold batchSize; lia|].
        exists (batch :: batches), rest. split; [|split; [|split]].
        -- rewrite Hf, <- app_assoc. reflexivity.
        -- constructor; assumption.
        -- cbn [List.concat]. rewrite <- app_assoc, Hc. exact Hsplit.
        -- exact Hn.
    + exists [], []. cbn. rewrite app_nil_r, skipn_none by lia. repeat split. constructor.
Qed.

Lemma insert_batches_failure store id rows : forall fuel i made e,
  snd (insert_batches store id rows fuel i made) = Some e ->
  exists pre batch j,
    fst (insert_batches store id rows fuel i made)
    = (made ++ map InsertRecords pre ++ [InsertRecords batch])%list
    /\ insert_records store j batch = Some e.
Proof.
  induction fuel as [|fuel IH]; intros i made e H; [discriminate H|].
  cbn [insert_batches] in *. destruct (Nat.ltb i (List.length rows)); [|discriminate H].
  set (batch := map (fun row => (id, row)) (slice i (i + batchSize) rows)) in *.
  destruct (insert_records store i batch) as [e'|] eqn:R.
  - cbn in H. injection H as <-. exists [], batch, i. split; [reflexivity | assumption].
  - destruct (IH _ _ _ H) as (pre & b & j & Hf & Hj).
    exists (batch :: pre), b, j. split; [|assumption].
    rewrite Hf, <- app_assoc. reflexivity.
Qed.

Lemma records_sent_app made made' :
  records_sent (made ++ made') = (records_sent made ++ records_sent made')%list.
Proof.
  induction made as [|c made IH]; [reflexivity|].
  destruct c; cbn [app records_sent]; rewrite IH; [reflexivity | | reflexivity].
  rewrite app_assoc. reflexivity.
Qed.

Lemma records_sent_batches batches : records_sent (map InsertRecords batches) = List.concat batches.
Proof. induction batches as [|b bs IH]; cbn; [reflexivity | rewrite IH; reflexivity]. Qed.

Lemma batches_of_app made made' :
  batches_of (made ++ made') = (batches_of made ++ batches_of made')%list.
Proof.
  induction made as [|c made IH]; [reflexivity|].
  destruct c; cbn [app batches_of]; rewrite IH; reflexivity.
Qed.

Lemma batches_of_batches batches : batches_of (map InsertRecords batches) = batches.
Proof. induction batches as [|b bs IH]; cbn; [reflexivity | rewrite IH; reflexivity]. Qed.

Lemma mark_complete_app made made' :
  existsb is_mark_complete (made ++ made')
  = existsb is_mark_complete made || existsb is_mark_complete made'.
Proof. apply existsb_app. Qed.

Lemma mark_complete_batches batches :
  existsb is_mark_complete (map InsertRecords batches) = false.
Proof. induction batches as [|b bs IH]; [reflexivity | exact IH]. Qed.

Lemma handleFile_tags name content st : tags (handleFile name content st) = tags st.
Proof.
  unfold handleFile. destruct (negb _); [reflexivity|].
  destruct (parseCSVContent content); reflexivity.
Qed.

Lemma includes_In l x : includes l x = true <-> In x l.
Proof. apply existsb_eqb_In. Qed.

Lemma addTag_tags_ok st : tags_ok (tags st) -> tags_ok (tags (addTag st)).
Proof.
  intros [Hnd Hall]. unfold addTag.
  destruct (String.eqb_spec (trim (tagInput st)) "") as [E|N]; cbn [negb andb];
    [split; assumption|].
  destruct (includes (tags st) (trim (tagInput st))) eqn:I; cbn [negb];
    [split; assumption|].
  cbn [tags]. split.
  - apply NoDup_app; [assumption | constructor; [intros [] | constructor] |].
    intros x Hx [<-|[]]. apply includes_In in Hx. congruence.
  - apply Forall_app. split; [assumption|].
    constructor; [split; [apply trim_idem | assumption] | constructor].
Qed.

Lemma removeTag_tags_ok tag st : tags_ok (tags st) -> tags_ok (tags (removeTag tag st)).
Proof.
  intros [Hnd Hall]. cbn [removeTag tags]. split.
  - apply NoDup_filter. assumption.
  - apply Forall_forall. intros t Ht. apply filter_In in Ht.
    rewrite Forall_forall in Hall. apply Hall. tauto.
Qed.

(** X17.  Whatever the user does, the tags of the page never hold a tag
    twice, and each tag is trimmed and not empty; removing a tag leaves no
    occurrence of it. *)
Theorem tags_stay_distinct_and_trimmed (store : Store) (st : State) :
  reachable store st ->
  tags_ok (tags st)
  /\ (forall tag, ~ In tag (tags (removeTag tag st)))
  /\ (forall t, In t (tags (addTag st)) -> In t (tags st) \/ t = trim (tagInput st)).
Proof.
  intros [actions ->]. split; [|split].
  - apply (fold_left_invariant (step store) (fun s => tags_ok (tags s))).
    + intros s a Hs. destruct a; cbn [step tags]; try assumption.
      * rewrite handleFile_tags. assumption.
      * apply addTag_tags_ok. assumption.
      * apply removeTag_tags_ok. assumption.
      * destruct (handleImport_keeps store s) as (_ & _ & -> & _). assumption.
      * split; constructor.
    + split; constructor.
  - intros tag H. cbn [removeTag tags] in H. apply filter_In in H.
    destruct H as [_ H]. rewrite String.eqb_refl in H. discriminate H.
  - intros t. unfold addTag.
    destruct (negb _ && negb _); cbn [tags]; [|tauto].
    intros H. apply in_app_or in H. destruct H as [H|[<-|[]]]; tauto.
Qed.

Lemma tags_stay_distinct_and_trimmed_witness :
  tags_ok ["east"; "q3"].
Proof.
  refine (proj1 (tags_stay_distinct_and_trimmed
            {| insert_dataset := fun _ => Refused "offline";
               insert_records := fun _ _ => None |}
            {| file := None; parsed := None; datasetName := ""; tagInput := "  ";
               tags := ["east"; "q3"]; status := StatusIdle; error := "" |} _)).
  exists [TypeTag " east "; AddTag; TypeTag "east"; AddTag; TypeTag "q3 "; AddTag;
          TypeTag "  "; AddTag].
  vm_compute. reflexivity.
Defined.

(** X18.  Each handler being run to its end before the next one starts
    (the reading of the file included), in every state the page can reach
    a parsed table comes with a selected file, and the statuses previewing
    and complete come with a parsed table; so [handleImport], when it goes
    past its guard, finds a file name and first inserts the dataset under
    it.  The file need not be the one the table was read from: the page
    keeps no record of that. *)
Theorem parsed_table_comes_with_a_file (store : Store) (st : State) :
  reachable store st ->
  (parsed st <> None -> file st <> None)
  /\ (status st = StatusPreviewing \/ status st = StatusComplete -> parsed st <> None)
  /\ (forall p, parsed st = Some p -> trim (datasetName st) <> "" ->
       exists fname,
         file st = Some fname
         /\ hd_error (calls (handleImport store st))
            = Some (InsertDataset
                      {| ds_name := trim (datasetName st); ds_tags := tags st;
                         source_filename := fname; column_schema := columns p;
                         row_count := totalRows p; ds_status := "processing" |})).
Proof.
  intros Hreach.
  assert (Inv : (parsed st <> None -> file st <> None)
                /\ (status st = StatusPreviewing \/ status st = StatusComplete ->
                    parsed st <> None)).
  { destruct Hreach as [actions ->].
    apply (fold_left_invariant (step store)
             (fun s => (parsed s <> None -> file s <> None)
                       /\ (status s = StatusPreviewing \/ status s = StatusComplete ->
                           parsed s <> None))).
    - intros s a [H1 H2]. destruct a; cbn [step]; try (split; assumption).
      + unfold handleFile. destruct (negb _); [split; assumption|].
        destruct (parseCSVContent content); cbn [parsed file status].
        * split; [discriminate | discriminate].
        * split; [discriminate|]. intros [H|H]; discriminate H.
      + unfold addTag. destruct (negb _ && negb _); split; assumption.
      + destruct (handleImport_keeps store s) as (Hf & Hp & _ & _).
        rewrite Hf, Hp. split; [assumption|].
        intros Hs. unfold handleImport, import_failed in Hs.
        destruct (parsed s) as [p|] eqn:P; [discriminate|].
        cbn [state] in Hs. apply H2 in Hs. congruence.
      + cbn. split; [congruence|]. intros [H|H]; discriminate H.
    - cbn. split; [congruence|]. intros [H|H]; discriminate H. }
  destruct Inv as [H1 H2]. split; [assumption|]. split; [assumption|].
  intros p Hp Hname.
  destruct (file st) as [fname|] eqn:F; [|exfalso; apply H1; congruence].
  exists fname. split; [reflexivity|].
  unfold handleImport. rewrite Hp, F.
  destruct (String.eqb_spec (trim (datasetName st)) ""); [contradiction|].
  destruct (insert_dataset store _) as [id|e] eqn:D; [|reflexivity].
  match goal with
  | |- context [insert_batches ?s ?i ?r ?f ?k ?m] =>
      destruct (insert_batches_spec s i r f k m) as (batches & rest & Hf & _);
      [lia|]; destruct (insert_batches s i r f k m) as [made [e|]]
  end; cbn [fst] in Hf; subst made; reflexivity.
Qed.

Lemma parsed_table_comes_with_a_file_witness :
  parsed (handleFile "a.csv" "x" initial) <> None.
Proof.
  refine (proj1 (proj2 (parsed_table_comes_with_a_file
            {| insert_dataset := fun _ => Refused "offline";
               insert_records := fun _ _ => None |}
            (handleFile "a.csv" "x" initial) _)) (or_introl _)).
  - exists [SelectFile "a.csv" "x"]. reflexivity.
  - reflexivity.
Defined.

(** *** [handleImport] *)

(** X19.  An import that the page reports complete has sent the store
    every parsed row once, in the order of the table, under the id the
    store gave the dataset, in batches of 1 to 500 rows, and marked that
    dataset complete as its last call. *)
Theorem complete_import_sends_every_row (store : Store) (st : State) (p : ParsedCSV)
    (id : string) :
  parsed st = Some p ->
  In (MarkComplete id) (calls (handleImport store st)) ->
  records_sent (calls (handleImport store st)) = map (fun row => (id, row)) (rows p)
  /\ Forall batch_ok (batches_of (calls (handleImport store st)))
  /\ last (calls (handleImport store st)) (MarkComplete "") = MarkComplete id
  /\ status (state (handleImport store st)) = StatusComplete
  /\ (exists d, hd_error (calls (handleImport store st)) = Some (InsertDataset d)
                /\ insert_dataset store d = Created id).
Proof.
  intros Hp. unfold handleImport, import_failed. rewrite Hp.
  destruct (trim (datasetName st) =? "")%string; [intros []|].
  destruct (file st) as [fname|]; [|intros []].
  match goal with |- context [insert_dataset store ?d0] => set (d := d0) end.
  destruct (insert_dataset store d) as [id'|e] eqn:D;
    [|cbn [calls]; intros [H|[]]; discriminate H].
  destruct (insert_batches_spec store id' (rows p) (List.length (rows p)) 0 [InsertDataset d])
    as (batches & rest & Hf & Hok & Hc & Hn); [lia|].
  destruct (insert_batches store id' (rows p) (List.length (rows p)) 0 [InsertDataset d])
    as [made [e|]]; cbn [fst snd] in Hf, Hn; subst made; cbn [calls state status].
  - intros H. exfalso. cbn in H. destruct H as [H|H]; [discriminate H|].
    apply in_map_iff in H. destruct H as (b & Hb & _). discriminate Hb.
  - intros H.
    assert (E : id' = id).
    { apply in_app_or in H. destruct H as [H|[H|[]]]; [|injection H; trivial].
      cbn in H. destruct H as [H|H]; [discriminate H|].
      apply in_map_iff in H. destruct H as (b & Hb & _). discriminate Hb. }
    subst id'. rewrite (Hn eq_refl), app_nil_r in Hc. cbn [skipn] in Hc.
    split; [|split; [|split; [|split]]].
    + rewrite records_sent_app. cbn [app records_sent].
      rewrite records_sent_batches, app_nil_r. exact Hc.
    + rewrite batches_of_app. cbn [app batches_of].
      rewrite batches_of_batches, app_nil_r. exact Hok.
    + apply last_last.
    + reflexivity.
    + exists d. split; [reflexivity | assumption].
Qed.

Lemma complete_import_sends_every_row_witness :
  records_sent
    (calls (handleImport
              {| insert_dataset := fun _ => Created "d1";
                 insert_records := fun _ _ => None |}
              {| file := Some "a.csv";
                 parsed := Some {| headers := ["k"]; rows := [[("k", VStr "1")]];
                                   columns := []; totalRows := 1 |};
                 datasetName := "a"; tagInput := ""; tags := [];
                 status := StatusPreviewing; error := "" |}))
  = [("d1", [("k", VStr "1")])].
Proof.
  refine (proj1 (complete_import_sends_every_row
            {| insert_dataset := fun _ => Created "d1";
               insert_records := fun _ _ => None |}
            {| file := Some "a.csv";
               parsed := Some {| headers := ["k"]; rows := [[("k", VStr "1")]];
                                 columns := []; totalRows := 1 |};
               datasetName := "a"; tagInput := ""; tags := [];
               status := StatusPreviewing; error := "" |}
            {| headers := ["k"]; rows := [[("k", VStr "1")]]; columns := [];
               totalRows := 1 |} "d1" eq_refl _)).
  vm_compute. right. right. left. reflexivity.
Defined.

(** X20.  An import that fails leaves the page in the error status with
    the message of the failure, and never marks the dataset complete.
    Either no call was made, or the refused insert of the dataset is the
    only call, or the last call is the batch the store refused, after the
    dataset and the batches before it, which stay inserted. *)
Theorem failed_import_stops_at_the_failure (store : Store) (st : State) (message : string) :
  toast (handleImport store st)
  = Some {| title := "Import failed"; description := message; destructive := true |} ->
  status (state (handleImport store st)) = StatusError
  /\ error (state (handleImport store st)) = message
  /\ existsb is_mark_complete (calls (handleImport store st)) = false
  /\ (calls (handleImport store st) = []
      \/ (exists d, calls (handleImport store st) = [InsertDataset d]
                    /\ insert_dataset store d = Refused message)
      \/ (exists d id pre batch i,
            calls (handleImport store st)
            = (InsertDataset d :: map InsertRecords pre ++ [InsertRecords batch])%list
            /\ insert_dataset store d = Created id
            /\ insert_records store i batch = Some message)).
Proof.
  unfold handleImport, import_failed.
  destruct (parsed st) as [p|]; [|discriminate].
  destruct (trim (datasetName st) =? "")%string; [discriminate|].
  destruct (file st) as [fname|].
  - match goal with |- context [insert_dataset store ?d0] => set (d := d0) end.
    destruct (insert_dataset store d) as [id|e] eqn:D.
    + pose proof (insert_batches_failure store id (rows p) (List.length (rows p)) 0
                    [InsertDataset d]) as Hfail.
      destruct (insert_batches store id (rows p) (List.length (rows p)) 0 [InsertDataset d])
        as [made [e|]]; cbn [toast state status error calls]; intros H; [|discriminate H].
      injection H as <-.
      destruct (Hfail e eq_refl) as (pre & batch & j & Hf & Hj). cbn [fst] in Hf. subst made.
      repeat split.
      * cbn [app existsb is_mark_complete orb]. rewrite mark_complete_app, mark_complete_batches.
        reflexivity.
      * right. right. exists d, id, pre, batch, j. repeat split; assumption.
    + cbn [toast state status error calls]. intros H. injection H as <-.
      repeat split. right. left. exists d. split; [reflexivity | assumption].
  - cbn [toast state status error calls]. intros H. injection H as <-.
    repeat split. left. reflexivity.
Qed.

Lemma failed_import_stops_at_the_failure_witness :
  existsb is_mark_complete
    (calls (handleImport
              {| insert_dataset := fun _ => Created "d1";
                 insert_records := fun _ _ => Some "quota exceeded" |}
              {| file := Some "a.csv";
                 parsed := Some {| headers := ["k"]; rows := [[("k", VStr "1")]];
                                   columns := []; totalRows := 1 |};
                 datasetName := "a"; tagInput := ""; tags := [];
                 status := StatusPreviewing; error := "" |})) = false.
Proof.
  exact (proj1 (proj2 (proj2 (failed_import_stops_at_the_failure
           {| insert_dataset := fun _ => Created "d1";
              insert_records := fun _ _ => Some "quota exceeded" |}
           {| file := Some "a.csv";
              parsed := Some {| headers := ["k"]; rows := [[("k", VStr "1")]];
                                columns := []; totalRows := 1 |};
              datasetName := "a"; tagInput := ""; tags := [];
              status := StatusPreviewing; error := "" |}
           "quota exceeded" eq_refl)))).
Defined.

End UploadFacts.

(** ** The query page *)

Module ChatFacts.
Import Str Std Js Csv Query Chat StrFacts SeqFacts QueryFacts.

Lemma slice_last_length {A} (n : nat) (l : list A) :
  (List.length (slice_last n l) <= n)%nat.
Proof. unfold slice_last. rewrite length_skipn. lia. Qed.

Lemma slice_last_suffix {A} (n : nat) (l : list A) :
  exists earlier, l = (earlier ++ slice_last n l)%list.
Proof.
  exists (firstn (List.length l - n) l). unfold slice_last.
  symmetry. apply firstn_skipn.
Qed.

(** X21.  [sendMessage] does nothing on a blank input or while a message
    is in flight.  Otherwise it adds exactly two messages to the
    conversation, the user's trimmed text and one reply of the assistant,
    empties the input and ends not loading; the function is sent the
    trimmed text and, as history, the last ten messages at most of the
    conversation before this one. *)
Theorem sendMessage_exchange (sv : Services) (st : PageState) :
  (trim (input st) = "" \/ isLoading st = true ->
     sendMessage sv st = {| state := st; toast := None; sent := None |})
  /\ (trim (input st) <> "" -> isLoading st = false ->
      exists reply body,
        messages (state (sendMessage sv st))
        = (messages st
           ++ [ {| role := user; content := trim (input st); results := None;
                   queryPlan := None |}; reply ])%list
        /\ role reply = assistant
        /\ input (state (sendMessage sv st)) = ""
        /\ isLoading (state (sendMessage sv st)) = false
        /\ sent (sendMessage sv st) = Some body
        /\ body_message body = trim (input st)
        /\ (List.length (body_history body) <= 10)%nat
        /\ exists earlier,
             map (fun m => (role m, content m)) (messages st)
             = (earlier ++ body_history body)%list).
Proof.
  unfold sendMessage. split.
  - intros [H|H]; [rewrite H; reflexivity | rewrite H, orb_true_r; reflexivity].
  - intros Hin Hl. rewrite Hl, orb_false_r.
    destruct (String.eqb_spec (trim (input st)) ""); [contradiction|].
    cbv zeta.
    match goal with |- context [invoke sv ?b] => set (body := b) end.
    assert (Hbody : body_message body = trim (input st)
                    /\ (List.length (body_history body) <= 10)%nat
                    /\ exists earlier,
                         map (fun m => (role m, content m)) (messages st)
                         = (earlier ++ body_history body)%list).
    { split; [reflexivity|]. split.
      - cbn [body body_history]. rewrite length_map. apply slice_last_length.
      - destruct (slice_last_suffix 10 (messages st)) as [earlier He].
        exists (map (fun m => (role m, content m)) earlier).
        cbn [body body_history]. rewrite <- map_app, <- He. reflexivity. }
    destruct (invoke sv body) as [response|e].
    + destruct (resp_queryPlan response) as [plan|].
      * destruct (executeQueryPlan (fetch sv) plan) as [res|e];
          eexists; exists body; cbn [state messages input isLoading sent];
          rewrite <- app_assoc; (split; [reflexivity|]); repeat split; apply Hbody.
      * eexists; exists body; cbn [state messages input isLoading sent];
          rewrite <- app_assoc; (split; [reflexivity|]); repeat split; apply Hbody.
    + eexists; exists body; cbn [state messages input isLoading sent];
        rewrite <- app_assoc; (split; [reflexivity|]); repeat split; apply Hbody.
Qed.

Lemma sendMessage_exchange_witness :
  sendMessage
    {| list_datasets := None;
       invoke := fun _ => InvokeFailed "offline";
       fetch := fun _ _ => {| data := None; error := None |} |}
    {| messages := []; input := "   "; isLoading := false |}
  = {| state := {| messages := []; input := "   "; isLoading := false |};
       toast := None; sent := None |}.
Proof.
  exact (proj1 (sendMessage_exchange
                  {| list_datasets := None;
                     invoke := fun _ => InvokeFailed "offline";
                     fetch := fun _ _ => {| data := None; error := None |} |}
                  {| messages := []; input := "   "; isLoading := false |})
               (or_introl eq_refl)).
Defined.



End ChatFacts.

(** ** Thresholds, line ends and comparisons *)

Module MoreFacts.
Import Str Std Js Csv Query StrFacts SeqFacts CsvFacts QueryFacts.

(** *** The date threshold *)

(** On up to 100 values the comparison [count > n * 0.7], made on
    binary64 numbers, is the exact comparison of [10 * count] with
    [7 * n], but for 63 of 90: the product [90 * 0.7] rounds below 63. *)
Lemma date_threshold_rounding (n c : nat) :
  (n <= 100)%nat -> (c <= 100)%nat ->
  Num.gt (Num.of_Z (Z.of_nat c))
         (Num.mul (Num.of_Z (Z.of_nat n)) (Num.of_decimal false 7 (-1)))
  = Nat.ltb (7 * n) (10 * c) || (Nat.eqb n 90 && Nat.eqb c 63).
Proof.
  intros Hn Hc.
  assert (T : forallb (fun n =>
                forallb (fun c =>
                  Bool.eqb
                    (Num.gt (Num.of_Z (Z.of_nat c))
                       (Num.mul (Num.of_Z (Z.of_nat n)) (Num.of_decimal false 7 (-1))))
                    (Nat.ltb (7 * n) (10 * c) || (Nat.eqb n 90 && Nat.eqb c 63)))
                  (seq 0 101)) (seq 0 101) = true) by (vm_compute; reflexivity).
  rewrite forallb_forall in T.
  assert (In1 : In n (seq 0 101)) by (apply in_seq; lia).
  specialize (T n In1). rewrite forallb_forall in T.
  assert (In2 : In c (seq 0 101)) by (apply in_seq; lia).
  apply Bool.eqb_prop. exact (T c In2).
Qed.

(** X23.  On at most 100 values, which is what the parser samples,
    [detectType] answers date exactly when the non-blank values are not
    all boolean words, not all numbers, and either strictly more than
    seven in ten of them start like a date, or exactly 63 of 90 do: the
    binary64 product [n * 0.7] misjudges the threshold at 90 values and
    nowhere else. *)
Theorem date_is_more_than_seven_in_ten (values : list string) :
  (List.length values <= 100)%nat ->
  let nonEmpty := filter nonblank values in
  let dated := filter (fun v => existsb (fun p => p v) datePatterns) nonEmpty in
  detectType values = TDate <->
  forallb (fun v => existsb (String.eqb (toLowerCase v)) boolValues) nonEmpty = false
  /\ forallb (fun v => negb (Num.isNaN (Num.StringToNumber v)) && nonblank v) nonEmpty = false
  /\ ((7 * List.length nonEmpty < 10 * List.length dated)%nat
      \/ (List.length nonEmpty = 90%nat /\ List.length dated = 63%nat)).
Proof.
  intros Hlen nonEmpty dated. unfold detectType. fold nonEmpty. fold dated.
  assert (Hn : (List.length nonEmpty <= 100)%nat).
  { eapply Nat.le_trans; [apply filter_length_le | exact Hlen]. }
  assert (Hc : (List.length dated <= List.length nonEmpty)%nat) by apply filter_length_le.
  rewrite date_threshold_rounding by lia.
  remember (Nat.ltb (7 * List.length nonEmpty) (10 * List.length dated)
            || (Nat.eqb (List.length nonEmpty) 90 && Nat.eqb (List.length dated) 63)) as b eqn:Hb.
  assert (R : b = true
              <-> ((7 * List.length nonEmpty < 10 * List.length dated)%nat
                   \/ (List.length nonEmpty = 90%nat /\ List.length dated = 63%nat))).
  { rewrite Hb, orb_true_iff, andb_true_iff, Nat.ltb_lt, !Nat.eqb_eq. reflexivity. }
  clear Hb.
  destruct (Nat.eqb (List.length nonEmpty) 0) eqn:Z.
  - apply Nat.eqb_eq in Z. apply length_zero_iff_nil in Z. rewrite Z.
    split; [discriminate | intros (H & _); discriminate H].
  - destruct (forallb (fun v => existsb (String.eqb (toLowerCase v)) boolValues) nonEmpty).
    + split; [discriminate | intros (H & _); discriminate H].
    + destruct (forallb _ nonEmpty).
      * split; [discriminate | intros (_ & H & _); discriminate H].
      * destruct b.
        -- split; [intros _; repeat split; apply R; reflexivity | reflexivity].
        -- split; [discriminate | intros (_ & _ & H); apply R in H; discriminate H].
Qed.

Lemma date_is_more_than_seven_in_ten_witness :
  detectType ["2024-01-01"; "1/2/24"; "3-4-2024"; "soon"] = TDate.
Proof.
  refine (proj2 (date_is_more_than_seven_in_ten
                   ["2024-01-01"; "1/2/24"; "3-4-2024"; "soon"] _) _).
  - simpl. lia.
  - vm_compute. repeat split. left. repeat constructor.
Defined.

(** *** Line ends *)

Lemma split_lines_app_crlf l rest :
  has_char LF l = false ->
  split_lines (l ++ String CR (String LF rest)) = l :: split_lines rest.
Proof.
  induction l as [|c l IH]; intros Hlf.
  - reflexivity.
  - cbn [has_char] in Hlf. apply orb_false_iff in Hlf. destruct Hlf as [Hc Hl].
    destruct l as [|c' l'].
    + cbn [append]. cbn [split_lines]. rewrite Hc.
      change (Ascii.eqb CR LF) with false. rewrite andb_false_r.
      change (Ascii.eqb CR CR && Ascii.eqb LF LF) with true. cbv iota.
      change (Ascii.eqb LF LF) with true. cbv iota. reflexivity.
    + assert (Hc' : Ascii.eqb c' LF = false).
      { cbn [has_char] in Hl. apply orb_false_iff in Hl. tauto. }
      change (split_lines (String c (String c' l') ++ String CR (String LF rest))) with
        (if Ascii.eqb c LF
         then EmptyString :: split_lines (String c' l' ++ String CR (String LF rest))
         else if Ascii.eqb c CR && Ascii.eqb c' LF
              then split_lines (String c' l' ++ String CR (String LF rest))
              else match split_lines (String c' l' ++ String CR (String LF rest)) with
                   | l0 :: ls => String c l0 :: ls
                   | [] => [String c EmptyString]
                   end).
      rewrite Hc, Hc', andb_false_r. rewrite (IH Hl). reflexivity.
Qed.

Lemma split_lines_join_crlf (ls : list string) :
  ls <> [] ->
  (forall l, In l ls -> has_char LF l = false) ->
  split_lines (join (String CR (String LF "")) ls) = ls.
Proof.
  induction ls as [|l ls IH]; intros Hne H; [congruence|].
  destruct ls as [|l' ls'].
  - simpl. apply split_lines_no_lf. apply H. left. reflexivity.
  - change (join (String CR (String LF "")) (l :: l' :: ls')) with
      (l ++ String CR (String LF (join (String CR (String LF "")) (l' :: ls')))).
    rewrite split_lines_app_crlf by (apply H; left; reflexivity).
    rewrite IH; [reflexivity | discriminate |].
    intros x Hx. apply H. right. assumption.
Qed.

(** X24.  Line ends: lines joined by CR LF parse to the same table as the
    same lines joined by LF alone (the lines holding no LF and not ending
    in CR). *)
Theorem crlf_and_lf_parse_alike (ls : list string) :
  ls <> [] ->
  (forall l, In l ls -> has_char LF l = false /\ ends_cr l = false) ->
  split_lines (join (String CR (String LF "")) ls) = ls
  /\ parseCSVContent (join (String CR (String LF "")) ls)
     = parseCSVContent (join (String LF "") ls).
Proof.
  intros Hne H.
  assert (E : split_lines (join (String CR (String LF "")) ls) = ls).
  { apply split_lines_join_crlf; [assumption|]. intros l Hl. apply H. assumption. }
  split; [assumption|].
  unfold parseCSVContent. rewrite E, split_lines_join by assumption. reflexivity.
Qed.

Lemma crlf_and_lf_parse_alike_witness :
  parseCSVContent ("a,b" ++ String CR (String LF "1,2") ++ String CR (String LF "3,4"))
  = parseCSVContent ("a,b" ++ String LF "1,2" ++ String LF "3,4").
Proof.
  refine (proj2 (crlf_and_lf_parse_alike ["a,b"; "1,2"; "3,4"] _ _)).
  - discriminate.
  - intros l [<-|[<-|[<-|[]]]]; split; reflexivity.
Defined.

(** *** The relational operators *)

Lemma SFcompare_antisym x y :
  SFcompare y x = match SFcompare x y with Some c => Some (CompOpp c) | None => None end.
Proof.
  destruct x as [sx|sx| |sx mx ex], y as [sy|sy| |sy my ey]; simpl;
    try reflexivity;
    try (destruct sx; reflexivity); try (destruct sy; reflexivity);
    try (destruct sx, sy; reflexivity).
  destruct sx, sy; try reflexivity.
  - rewrite (Z.compare_antisym ex ey). destruct (ex ?= ey)%Z; simpl; try reflexivity.
    change (Pos.compare_cont Eq my mx) with (Pos.compare my mx).
    change (Pos.compare_cont Eq mx my) with (Pos.compare mx my).
    rewrite (Pos.compare_antisym mx my). destruct (mx ?= my)%positive; reflexivity.
  - rewrite (Z.compare_antisym ex ey). destruct (ex ?= ey)%Z; simpl; try reflexivity.
    change (Pos.compare_cont Eq my mx) with (Pos.compare my mx).
    change (Pos.compare_cont Eq mx my) with (Pos.compare mx my).
    rewrite (Pos.compare_antisym mx my). destruct (mx ?= my)%positive; reflexivity.
Qed.

Lemma SFcompare_NaN x y :
  Num.isNaN x = false -> Num.isNaN y = false -> SFcompare x y <> None.
Proof.
  destruct x, y; simpl; intros Hx Hy; try discriminate; destruct s; try discriminate;
    try (destruct s0; discriminate).
Qed.

(** X25.  The relational operators split the rows in two: when the row's
    value and the filter value both convert to numbers, [gt] keeps the row
    exactly when [lte] drops it, and [lt] exactly when [gte] drops it;
    when one of them does not convert, none of the four keeps the row. *)
Theorem relational_operators_partition (col : string) (v : jsval) (row : obj) :
  let f op := {| column := col; operator := op; value := v |} in
  (Num.isNaN (ToNumber (get row col)) = false -> Num.isNaN (ToNumber v) = false ->
     keep (f "gt") row = negb (keep (f "lte") row)
     /\ keep (f "lt") row = negb (keep (f "gte") row))
  /\ (Num.isNaN (ToNumber (get row col)) = true \/ Num.isNaN (ToNumber v) = true ->
      keep (f "gt") row = false /\ keep (f "lt") row = false
      /\ keep (f "gte") row = false /\ keep (f "lte") row = false).
Proof.
  intros f.
  assert (K : forall op, is_relational op = true ->
            keep (f op) row = relational op (ToNumber (get row col)) (ToNumber v)).
  { intros op Hop. apply (keep_relational (f op) row Hop). }
  rewrite (K "gt" eq_refl), (K "lt" eq_refl), (K "gte" eq_refl), (K "lte" eq_refl).
  unfold relational. cbn [String.eqb Ascii.eqb Bool.eqb].
  unfold Num.gt, Num.lt, Num.ge, Num.le, SFltb, SFleb.
  set (x := ToNumber (get row col)). set (y := ToNumber v).
  split.
  - intros Hx Hy. pose proof (SFcompare_NaN x y Hx Hy) as Hc.
    rewrite (SFcompare_antisym x y).
    destruct (SFcompare x y) as [[ | | ]|]; [| | |congruence]; split; reflexivity.
  - intros H. rewrite (SFcompare_antisym x y).
    assert (N : SFcompare x y = None).
    { destruct H as [H|H].
      - destruct x; try discriminate H. reflexivity.
      - destruct y; try discriminate H. destruct x; reflexivity. }
    rewrite N. repeat split.
Qed.

Lemma relational_operators_partition_witness :
  keep {| column := "n"; operator := "gt"; value := VStr "10" |} [("n", VStr "9.5")]
  = negb (keep {| column := "n"; operator := "lte"; value := VStr "10" |}
               [("n", VStr "9.5")]).
Proof.
  refine (proj1 (proj1 (relational_operators_partition "n" (VStr "10") [("n", VStr "9.5")])
                   _ _)); vm_compute; reflexivity.
Defined.

End MoreFacts.
